(** * Generalised Peukert battery model: capacity, runtime and parameter fit

    A shallow embedding of [Códigos/Peukert Generalizado 1.0.py]:
    [encontrar_parametros] (with its inner [modelo] and [residuals]),
    [calculo_capacidade], [peukert] and the part of [main] that calls them.

    Numbers.  A Python [float] and a [numpy.float64] are both IEEE binary64.
    Here a finite value is an exact real number ([Fin r]): rounding and the
    sign of zero are not modelled, so a statement is about the value computed
    up to rounding.  An equality with the code's own expression is to be read
    so; where a property relates the result to another expression, or orders
    two results, it is stated with a tolerance or for values that are far
    apart.  The range of binary64 is modelled where this program leaves it
    for ordinary arguments, in the power [**]: a power above the largest
    double overflows (Python raises [OverflowError], numpy returns [inf]),
    one below half the smallest double is zero; the other operations are
    taken within range.  A Python [complex], which [**] returns for a
    negative base and a fractional exponent, is followed only as far as the
    exceptions of the operations on it.  The non-finite values [inf],
    [-inf] and [nan] are kept, because numpy arithmetic produces them where
    Python's own arithmetic raises [ZeroDivisionError], and the two kinds of
    scalar meet in this program ([scipy.special.erfc] and the fields of the
    solver's result are numpy scalars, literals are Python numbers).

    Libraries.  [scipy.special.erfc] is the complementary error function,
    defined below from the Riemann integral of the Gaussian.
    [scipy.optimize.least_squares] is a parameter of the development. *)

From Stdlib Require Import Reals Lra Lia Psatz List ZArith String.
Import ListNotations.
Local Open Scope R_scope.

(** ** The complementary error function *)

Definition gauss (t : R) : R := exp (- (t * t)).

Lemma gauss_derivable : derivable gauss.
Proof. unfold gauss. reg. Qed.

Lemma gauss_continuity : continuity gauss.
Proof. apply derivable_continuous, gauss_derivable. Qed.

Lemma gauss_integrable (a b : R) : Riemann_integrable gauss a b.
Proof.
  destruct (Rle_dec a b) as [Hab | Hab].
  - apply continuity_implies_RiemannInt; [exact Hab | intros; apply gauss_continuity].
  - apply RiemannInt_P1, continuity_implies_RiemannInt;
      [lra | intros; apply gauss_continuity].
Qed.

(** The integral of the Gaussian from [a] to [b]. *)
Definition gauss_int (a b : R) : R := RiemannInt (gauss_integrable a b).

(** [erf x = 2/sqrt(pi) * integral of exp(-t^2) for t from 0 to x]. *)
Definition erf (x : R) : R := 2 / sqrt PI * gauss_int 0 x.

Definition erfc (x : R) : R := 1 - erf x.

(** ** binary64 values, idealised *)

Inductive xfloat : Type :=
| Fin (r : R)
| PInf
| NInf
| NaN.

(** The infinity of the given sign ([true] is negative). *)
Definition inf_of (negative : bool) : xfloat := if negative then NInf else PInf.

(** Sign of a finite value as a divisor or factor; zero counts as [+0]. *)
Definition is_neg (r : R) : bool := if Rlt_dec r 0 then true else false.

Definition is_zero (r : R) : bool := if Req_dec_T r 0 then true else false.

Definition xopp (a : xfloat) : xfloat :=
  match a with
  | Fin r => Fin (- r)
  | PInf => NInf
  | NInf => PInf
  | NaN => NaN
  end.

Definition xsub (a b : xfloat) : xfloat :=
  match a, b with
  | NaN, _ | _, NaN => NaN
  | Fin x, Fin y => Fin (x - y)
  | Fin _, PInf => NInf
  | Fin _, NInf => PInf
  | PInf, PInf | NInf, NInf => NaN
  | PInf, _ => PInf
  | NInf, _ => NInf
  end.

Definition xmul (a b : xfloat) : xfloat :=
  match a, b with
  | NaN, _ | _, NaN => NaN
  | Fin x, Fin y => Fin (x * y)
  | Fin x, PInf | PInf, Fin x => if is_zero x then NaN else inf_of (is_neg x)
  | Fin x, NInf | NInf, Fin x => if is_zero x then NaN else inf_of (negb (is_neg x))
  | PInf, PInf | NInf, NInf => PInf
  | PInf, NInf | NInf, PInf => NInf
  end.

(** IEEE division: a finite non-zero value over zero is an infinity, [0/0]
    and [inf/inf] are [nan].  Nothing is raised here. *)
Definition xdiv (a b : xfloat) : xfloat :=
  match a, b with
  | NaN, _ | _, NaN => NaN
  | Fin x, Fin y =>
      if is_zero y then (if is_zero x then NaN else inf_of (is_neg x))
      else Fin (x / y)
  | Fin _, (PInf | NInf) => Fin 0
  | PInf, Fin y => inf_of (is_neg y)
  | NInf, Fin y => inf_of (negb (is_neg y))
  | (PInf | NInf), (PInf | NInf) => NaN
  end.

(** [erfc] on binary64: [erfc(inf) = 0], [erfc(-inf) = 2]. *)
Definition xerfc (a : xfloat) : xfloat :=
  match a with
  | Fin r => Fin (erfc r)
  | PInf => Fin 0
  | NInf => Fin 2
  | NaN => NaN
  end.

(** [y] is a whole number. *)
Definition is_int (y : R) : bool := if Req_dec_T (IZR (Int_part y)) y then true else false.

Definition is_odd_int (y : R) : bool := is_int y && Z.odd (Int_part y).

(** [|x|] against 1: [Lt], [Eq] or [Gt]. *)
Definition cmp_abs_one (x : R) : comparison :=
  if Rlt_dec (Rabs x) 1 then Lt else if Req_dec_T (Rabs x) 1 then Eq else Gt.

(** The largest binary64 value, and half the smallest positive one (what is
    below it rounds to zero). *)
Definition float_max : R := (2 - / 2 ^ 52) * 2 ^ 1023.

Definition float_tiny : R := / 2 ^ 1075.

(** The binary64 result of a power whose real value is [r > 0]: [inf] when
    it overflows, zero when it underflows. *)
Definition pow_range (r : R) : xfloat :=
  if Rlt_dec float_max r then PInf
  else if Rlt_dec r float_tiny then Fin 0
  else Fin r.

(** C99 [pow], which numpy's [**] on float64 follows. *)
Definition xpow (a b : xfloat) : xfloat :=
  match a, b with
  | _, Fin y =>
      if is_zero y then Fin 1 else
      match a with
      | NaN => NaN
      | Fin x =>
          if is_zero x then (if is_neg y then PInf else Fin 0)
          else if is_neg x then
            (if is_int y
             then (if Z.odd (Int_part y) then xopp (pow_range (Rpower (- x) y))
                   else pow_range (Rpower (- x) y))
             else NaN)
          else pow_range (Rpower x y)
      | PInf => if is_neg y then Fin 0 else PInf
      | NInf => if is_neg y then Fin 0 else if is_odd_int y then NInf else PInf
      end
  | Fin x, NaN => if is_zero (x - 1) then Fin 1 else NaN
  | _, NaN => NaN
  | NaN, _ => NaN
  | Fin x, PInf =>
      match cmp_abs_one x with Lt => Fin 0 | Eq => Fin 1 | Gt => PInf end
  | Fin x, NInf =>
      match cmp_abs_one x with Lt => PInf | Eq => Fin 1 | Gt => Fin 0 end
  | (PInf | NInf), PInf => PInf
  | (PInf | NInf), NInf => Fin 0
  end.

(** ** Python scalars and outcomes *)

(** [Py]: a Python [int] or [float].  [Np]: a [numpy.float64]. *)
Inductive kind : Type := Py | Np.

Record num : Type := Num { num_kind : kind; num_val : xfloat }.

(** A binary operation is done by numpy as soon as one operand is a numpy
    scalar ([numpy.float64] subclasses [float] and overrides the reflected
    operators). *)
Definition join (k1 k2 : kind) : kind :=
  match k1, k2 with
  | Py, Py => Py
  | _, _ => Np
  end.

Inductive exn : Type :=
| ZeroDivisionError
| ValueError
| IndexError
| OverflowError.

(** What a call does: it returns a value of the domain modelled, raises,
    or returns a Python [complex], whose value is not modelled. *)
Inductive outcome (A : Type) : Type :=
| Return (a : A)
| Raise (e : exn)
| ComplexValue.

Arguments Return {A} a.
Arguments Raise {A} e.
Arguments ComplexValue {A}.

Definition bind {A B : Type} (m : outcome A) (f : A -> outcome B) : outcome B :=
  match m with
  | Return a => f a
  | Raise e => Raise e
  | ComplexValue => ComplexValue
  end.

Notation "x <- m ;; k" := (bind m (fun x => k))
  (at level 61, m at next level, right associativity).

Definition py_int (z : Z) : num := Num Py (Fin (IZR z)).
Definition py_float (r : R) : num := Num Py (Fin r).
Definition np_float (r : R) : num := Num Np (Fin r).

Definition is_zero_x (a : xfloat) : bool :=
  match a with Fin r => is_zero r | _ => false end.

Definition py_neg (a : num) : num := Num (num_kind a) (xopp (num_val a)).

Definition py_sub (a b : num) : num :=
  Num (join (num_kind a) (num_kind b)) (xsub (num_val a) (num_val b)).

Definition py_mul (a b : num) : num :=
  Num (join (num_kind a) (num_kind b)) (xmul (num_val a) (num_val b)).

(** [a / b].  Between Python numbers a zero divisor raises; with a numpy
    operand the IEEE result is returned (numpy only warns). *)
Definition py_truediv (a b : num) : outcome num :=
  match join (num_kind a) (num_kind b) with
  | Py => if is_zero_x (num_val b) then Raise ZeroDivisionError
          else Return (Num Py (xdiv (num_val a) (num_val b)))
  | Np => Return (Num Np (xdiv (num_val a) (num_val b)))
  end.

(** The value of a power: a real scalar, or a Python [complex], of which
    only whether it is zero is kept. *)
Inductive power : Type :=
| Real (v : num)
| Complex (zero : bool).

(** [a ** b].  Between Python numbers, zero to a negative finite power
    raises [ZeroDivisionError], a negative finite base to a finite fractional
    power is a [complex] of modulus [|a| ** b] (zero when that underflows),
    and a power of finite operands that overflows raises [OverflowError] (one
    that underflows is zero); otherwise the result is that of C99 [pow].
    numpy never raises. *)
Definition py_pow (a b : num) : outcome power :=
  match join (num_kind a) (num_kind b) with
  | Py =>
      match num_val a, num_val b with
      | Fin x, Fin y =>
          if is_zero y then Return (Real (Num Py (Fin 1)))
          else if is_zero x then
            (if is_neg y then Raise ZeroDivisionError
             else Return (Real (Num Py (Fin 0))))
          else if (is_neg x && negb (is_int y))%bool then
            (if Rlt_dec float_max (Rpower (- x) y) then Raise OverflowError
             else Return (Complex (if Rlt_dec (Rpower (- x) y) float_tiny
                                   then true else false)))
          else
            match xpow (Fin x) (Fin y) with
            | PInf | NInf => Raise OverflowError
            | v => Return (Real (Num Py v))
            end
      | x, y => Return (Real (Num Py (xpow x y)))
      end
  | Np => Return (Real (Num Np (xpow (num_val a) (num_val b))))
  end.

(** [(R * p) / d] for two powers [p] and [d].  With a [complex] operand the
    quotient is a [complex].  Python's complex division raises on a zero
    divisor, also when the divisor is a numpy float (a subclass of [float],
    which [complex] converts itself); numpy's division, which is used when
    the dividend is a numpy scalar, does not raise. *)
Definition scaled_quotient (R : num) (p d : power) : outcome num :=
  match p, d with
  | Real p, Real d => py_truediv (py_mul R p) d
  | Real p, Complex zero =>
      match num_kind (py_mul R p) with
      | Py => if zero then Raise ZeroDivisionError else ComplexValue
      | Np => ComplexValue
      end
  | Complex _, Real d =>
      if is_zero_x (num_val d) then Raise ZeroDivisionError else ComplexValue
  | Complex _, Complex zero =>
      if zero then Raise ZeroDivisionError else ComplexValue
  end.

(** [scipy.special.erfc] on a scalar: the result is a numpy scalar. *)
Definition sp_erfc (a : num) : num := Num Np (xerfc (num_val a)).

(** ** numpy arrays (one dimension, float64) *)

Definition ndarray : Type := list xfloat.

Definition np_array (l : list R) : ndarray := map Fin l.

(** array (op) scalar, elementwise. *)
Definition arr_scal (op : xfloat -> xfloat -> xfloat) (a : ndarray) (s : xfloat) : ndarray :=
  map (fun e => op e s) a.

Definition scal_arr (op : xfloat -> xfloat -> xfloat) (s : xfloat) (a : ndarray) : ndarray :=
  map (fun e => op s e) a.

Fixpoint zip_with (op : xfloat -> xfloat -> xfloat) (a b : ndarray) : ndarray :=
  match a, b with
  | x :: a', y :: b' => op x y :: zip_with op a' b'
  | _, _ => []
  end.

(** array (op) array with numpy broadcasting: equal lengths, or one side of
    length one; anything else raises [ValueError]. *)
Definition arr_arr (op : xfloat -> xfloat -> xfloat) (a b : ndarray) : outcome ndarray :=
  if Nat.eqb (List.length a) (List.length b) then Return (zip_with op a b)
  else match a, b with
       | [x], _ => Return (scal_arr op x b)
       | _, [y] => Return (arr_scal op a y)
       | _, _ => Raise ValueError
       end.

(** ** Standard output *)

(** A printed line is a sequence of literal text and formatted numbers:
    [Fixed d v] is [f"{v:.<d>f}"], [Sci d v] is [f"{v:.<d>e}"]. *)
Inductive piece : Type :=
| Str (s : string)
| Fixed (digits : nat) (v : xfloat)
| Sci (digits : nat) (v : xfloat).

Definition line : Type := list piece.

(** A computation that prints: the lines written, then how it ended. *)
Definition io (A : Type) : Type := (list line * outcome A)%type.

Definition io_ret {A : Type} (a : A) : io A := ([], Return a).

Definition io_bind {A B : Type} (m : io A) (f : A -> io B) : io B :=
  match m with
  | (out, Return a) => let (out', r) := f a in (out ++ out', r)
  | (out, Raise e) => (out, Raise e)
  | (out, ComplexValue) => (out, ComplexValue)
  end.

Definition lift {A : Type} (m : outcome A) : io A := ([], m).

Definition print (l : line) : io unit := ([l], Return tt).

Notation "x <~ m ;; k" := (io_bind m (fun x => k))
  (at level 61, m at next level, right associativity).
Notation "m ;;; k" := (io_bind m (fun _ => k))
  (at level 61, right associativity).

(** ** The result of [scipy.optimize.least_squares] *)

Module OptimizeResult.
(** The two fields this program reads. *)
Record t : Type := mk { x : ndarray; cost : xfloat }.
End OptimizeResult.

Inductive method : Type := trf | dogbox | lm.

(** [least_squares(fun, x0, args=(a, b), method=m)]: the solver calls
    [fun(x, a, b)] and returns the fitted parameters and the cost. *)
Definition solver : Type :=
  (ndarray -> ndarray -> ndarray -> outcome ndarray) ->
  ndarray -> ndarray * ndarray -> method -> outcome OptimizeResult.t.

(** [a[k]] on an array. *)
Definition getitem (a : ndarray) (k : nat) : outcome xfloat :=
  match nth_error a k with
  | Some v => Return v
  | None => Raise IndexError
  end.

(** ** The program *)

Section Program.

Variable least_squares : solver.

(** The model optimised by the fit; [params] and [i] are arrays, so all
    the arithmetic is numpy's. *)
Definition modelo (params i : ndarray) : outcome ndarray :=
  match params with
  | [Cm; n; ik] =>
      Return
        (scal_arr xmul (xdiv Cm (xerfc (xopp n)))
           (map xerfc
              (arr_scal xdiv
                 (arr_scal xsub (arr_scal xdiv i ik) (Fin 1))
                 (xdiv (Fin 1) n))))
  | _ => Raise ValueError
  end.

Definition residuals (params i C_observado : ndarray) : outcome ndarray :=
  C_estimado <- modelo params i ;;
  arr_arr xsub C_estimado C_observado.

Definition encontrar_parametros (C_observado i : ndarray) : io OptimizeResult.t :=
  let Cm_parametro := 61.285 in
  let i := arr_scal xmul (np_array [10; 7.5; 5]) (Fin Cm_parametro) in
  let C_observado :=
    np_array [15.054043042538622; 25.81989538243598; 38.59230288240648] in
  let params_iniciais := np_array [100; 0.5; 300] in
  resultado <~ lift (least_squares residuals params_iniciais (i, C_observado) lm) ;;
  print [Str "Parametros Otimizados:"] ;;;
  x0 <~ lift (getitem (OptimizeResult.x resultado) 0) ;;
  print [Str "Cm = "; Fixed 4 x0] ;;;
  x1 <~ lift (getitem (OptimizeResult.x resultado) 1) ;;
  print [Str "n = "; Fixed 4 x1] ;;;
  x2 <~ lift (getitem (OptimizeResult.x resultado) 2) ;;
  print [Str "ik = "; Fixed 4 x2] ;;;
  print [Str "Soma residual dos quadrados: "; Sci 4 (OptimizeResult.cost resultado)] ;;;
  io_ret resultado.

Definition calculo_capacidade (Cm i ik n : num) : outcome num :=
  q <- py_truediv Cm (sp_erfc (py_neg n)) ;;
  r <- py_truediv i ik ;;
  u <- py_truediv (py_int 1) n ;;
  v <- py_truediv (py_sub r (py_int 1)) u ;;
  Return (py_mul q (sp_erfc v)).

(** [R = 1/R] and [t = (R*(C/R)**n) / (i**n)], in the order Python
    evaluates them.  The product [R * p] is formed before [i ** n]; a product
    never raises, so it is taken together with the final division. *)
Definition peukert (n R i C : num) : outcome num :=
  R <- py_truediv (py_int 1) R ;;
  b <- py_truediv C R ;;
  p <- py_pow b n ;;
  d <- py_pow i n ;;
  scaled_quotient R p d.

(** [main] up to its last [print]; the call of [plotar] that follows only
    draws a chart and is left out. *)
Definition main : io unit :=
  let i_descarga := py_mul (py_int 5) (py_float 61.285) in
  let arg := np_array [612.85; 459.6375; 306.425] in
  resultado <~ encontrar_parametros arg arg ;;
  match OptimizeResult.x resultado with
  | [Cm; n; ik] =>
      capacidade_A <~ lift (calculo_capacidade (Num Np Cm) i_descarga (Num Np ik) (Num Np n)) ;;
      duracao_h <~ lift (peukert (Num Np n) (py_int 100) (py_int 80) (py_int 6)) ;;
      print [Str "Capacidade bateria: "; Fixed 2 (num_val capacidade_A); Str " Ah"] ;;;
      print [Fixed 2 (num_val (py_mul duracao_h (py_int 60))); Str " Minutos"]
  | _ => lift (Raise ValueError)
  end.

End Program.

(** ** The capacity and runtime formulas as the specification words them *)

(** [C = (Cm / erfc(-n)) * erfc(((i/ik) - 1) * n_inverse)], [n_inverse = 1/n]. *)
Definition capacity_spec (Cm i ik n : R) : R :=
  let n_inverse := 1 / n in
  (Cm / erfc (- n)) * erfc (((i / ik) - 1) * n_inverse).

(** [R = 1 / C_rating]; [t = R * (C / R)^n / i^n]. *)
Definition duration_spec (n C_rating i C : R) : R :=
  let R := 1 / C_rating in
  R * Rpower (C / R) n / Rpower i n.


(** ** Auxiliary definitions for the proofs *)

(** The value the code computes: the normalised current is divided by
    [1/n]. *)
Definition capacity_code (Cm i ik n : R) : R :=
  (Cm / erfc (- n)) * erfc (((i / ik) - 1) / (1 / n)).

(** A power within the range of binary64: it neither overflows nor
    underflows to zero. *)
Definition in_range (r : R) : Prop := float_tiny <= r <= float_max.

(** A positive value of ordinary magnitude, far from both ends of the
    range of binary64 (between about 8e-31 and 1.3e30). *)
Definition ordinary (r : R) : Prop := / 2 ^ 100 <= r <= 2 ^ 100.

(** The kind of the result of [peukert]: a Python float only when all four
    arguments are Python numbers. *)
Definition join4 (kn kR ki kC : kind) : kind := join kn (join kR (join ki kC)).

(** The data the function assigns before it calls the solver. *)
Definition currents_fixed : ndarray := np_array [612.85; 459.6375; 306.425].

Definition capacities_fixed : ndarray :=
  np_array [15.054043042538622; 25.81989538243598; 38.59230288240648].

Definition params_iniciais_fixed : ndarray := np_array [100; 0.5; 300].

(** The lines printed for a result. *)
Definition report (a b c cost : xfloat) : list line :=
  [ [Str "Parametros Otimizados:"];
    [Str "Cm = "; Fixed 4 a];
    [Str "n = "; Fixed 4 b];
    [Str "ik = "; Fixed 4 c];
    [Str "Soma residual dos quadrados: "; Sci 4 cost] ].

(** A solver that makes no iteration and returns its starting point; it
    stands for [least_squares] where a concrete run is needed. *)
Definition solver_x0 : solver :=
  fun _ x0 _ _ => Return (OptimizeResult.mk x0 (Fin 0)).

(** The call of the solver that [encontrar_parametros] makes. *)
Definition solver_call (least_squares : solver) : outcome OptimizeResult.t :=
  least_squares residuals params_iniciais_fixed (currents_fixed, capacities_fixed) lm.

(** Taylor polynomial of [exp(-u)] of degree [n]. *)
Fixpoint texp (n : nat) (u : R) : R :=
  match n with
  | O => 1
  | S k => texp k u + / INR (fact (S k)) * (- u) ^ S k
  end.

(** Its derivative. *)
Definition dtexp (n : nat) (u : R) : R :=
  match n with
  | O => 0
  | S k => - texp k u
  end.

(** The antiderivative of [t |-> texp n (t*t)] that vanishes at 0: the
    Taylor polynomial of the Gaussian integral. *)
Fixpoint terf (n : nat) (t : R) : R :=
  match n with
  | O => t
  | S k => terf k t
           + (- 1) ^ S k * / INR (fact (S k)) * / INR (S (2 * S k)) * t ^ S (2 * S k)
  end.

(** Factorial in [Z], to evaluate the coefficients. *)
Fixpoint Zfact (n : nat) : Z :=
  match n with
  | O => 1%Z
  | S k => (Z.of_nat (S k) * Zfact k)%Z
  end.

(** ** [plotar] *)

(** [numpy.linspace(start, stop, num)], end point included: [num] values
    from [start] in steps of [(stop - start) / (num - 1)] (the last one is
    [stop]). *)
Definition linspace (start stop : R) (num : nat) : ndarray :=
  let step := (stop - start) / INR (num - 1) in
  map (fun k => Fin (start + INR k * step)) (seq 0 num).

(** The calls of [matplotlib.pyplot] the function makes, in order. *)
Inductive plot_cmd : Type :=
| PltPlot (xs : ndarray) (ys : list num)
| PltXlabel (s : string)
| PltYlabel (s : string)
| PltGrid (s : string)
| PltScatter (x y : num) (color : string)
| PltText (x y : num) (s : line) (fontsize : Z) (ha : string)
| PltSavefig (fname : string)
| PltShow.

(** How a run of [plotar] ends: normally, with an exception of the
    arithmetic, on a [complex] value, or with [UnboundLocalError] on a
    variable the loop never assigned. *)
Inductive plot_end : Type :=
| Done
| Raised (e : exn)
| SawComplex
| Unbound (name : string).

(** The local variables the loop assigns; [minimo], [meio] and [maximo] are
    unbound ([None]) until the loop reaches them. *)
Record plot_vars : Type := PlotVars {
  pv_vertical : list num;
  pv_minimo : option (num * num);
  pv_meio : option (num * num);
  pv_maximo : option (num * num)
}.

Definition plot_init : plot_vars := PlotVars [] None None None.

(** One turn of the loop [for j in horizontal]. *)
Definition plotar_step (v : plot_vars) (j : xfloat) : outcome plot_vars :=
  t <- peukert (py_float 0.6530) (py_int 100) (Num Np j) (py_int 6) ;;
  let valor := py_mul t (py_int 60) in
  let vertical := pv_vertical v ++ [valor] in
  Return
    (PlotVars vertical
       (if Nat.eqb (List.length vertical) 1 then Some (Num Np j, valor) else pv_minimo v)
       (if Nat.eqb (List.length vertical) 50 then Some (Num Np j, valor) else pv_meio v)
       (if Nat.eqb (List.length vertical) 100 then Some (Num Np j, valor) else pv_maximo v)).

Fixpoint plotar_loop (horizontal : ndarray) (v : plot_vars) : outcome plot_vars :=
  match horizontal with
  | [] => Return v
  | j :: rest => v' <- plotar_step v j ;; plotar_loop rest v'
  end.

(** [plt.scatter] and [plt.text] at a marked point. *)
Definition draw_mark (p : num * num) (ha : string) : list plot_cmd :=
  [ PltScatter (fst p) (snd p) "red";
    PltText (fst p) (snd p)
      [Str "("; Sci 2 (num_val (fst p)); Str ", "; Sci 2 (num_val (snd p)); Str ")"]
      12 ha ].

(** The drawing that follows the loop. *)
Definition plotar_draw (horizontal : ndarray) (v : plot_vars) : list plot_cmd * plot_end :=
  let xlabel := "corrente [A]"%string in
  let ylabel := "duração [min]"%string in
  let curve :=
    [PltPlot horizontal (pv_vertical v); PltXlabel xlabel; PltYlabel ylabel; PltGrid "True"] in
  match pv_minimo v with
  | None => (curve, Unbound "minimo")
  | Some minimo =>
      match pv_meio v with
      | None => (curve ++ draw_mark minimo "left", Unbound "meio")
      | Some meio =>
          match pv_maximo v with
          | None =>
              (curve ++ draw_mark minimo "left" ++ draw_mark meio "right", Unbound "maximo")
          | Some maximo =>
              (curve ++ draw_mark minimo "left" ++ draw_mark meio "right"
                 ++ draw_mark maximo "right"
                 ++ [PltSavefig (ylabel ++ " x " ++ xlabel)%string; PltShow],
               Done)
          end
      end
  end.

(** The values of the local variables when the loop of [plotar] ends. *)
Definition plotar_vars : outcome plot_vars :=
  plotar_loop (linspace 0.1 100 100) plot_init.

Definition plotar : list plot_cmd * plot_end :=
  match plotar_vars with
  | Return v => plotar_draw (linspace 0.1 100 100) v
  | Raise e => ([], Raised e)
  | ComplexValue => ([], SawComplex)
  end.

(** A solver that raises [e]. *)
Definition solver_raising (e : exn) : solver := fun _ _ _ _ => Raise e.

(** The runtime in minutes that [plotar] plots at current [j], and the
    point it marks there. *)
Definition valor_at (j : R) : num := np_float (duration_spec 0.6530 100 j 6 * 60).

Definition point_at (j : R) : num * num := (np_float j, valor_at j).

(** The currents [plotar] samples: the elements of
    [linspace(0.1, 100, 100)]. *)
Definition sample (k : nat) : R := 0.1 + INR k * ((100 - 0.1) / INR (100 - 1)).

(** * Properties *)

(** ** The error function *)

Lemma gauss_pos (t : R) : 0 < gauss t.
Proof. apply exp_pos. Qed.

Lemma gauss_le_1 (t : R) : gauss t <= 1.
Proof.
  unfold gauss. rewrite <- exp_0.
  destruct (Req_dec_T (t * t) 0) as [E | E].
  - rewrite E, Ropp_0. lra.
  - left. apply exp_increasing. nra.
Qed.

Lemma gauss_int_refl (a : R) : gauss_int a a = 0.
Proof. apply RiemannInt_P9. Qed.

Lemma gauss_int_chasles (a b c : R) :
  gauss_int a b + gauss_int b c = gauss_int a c.
Proof. apply RiemannInt_P26. Qed.

Lemma gauss_int_swap (a b : R) : gauss_int a b = - gauss_int b a.
Proof.
  pose proof (gauss_int_chasles a b a) as H.
  rewrite gauss_int_refl in H. lra.
Qed.

Lemma gauss_int_pos (a b : R) : a < b -> 0 < gauss_int a b.
Proof.
  intros Hab.
  assert (Hb : exp (- (a * a + b * b)) * (b - a) <= gauss_int a b <= 1 * (b - a)).
  { apply RiemannInt_const_bound; [lra |].
    intros t Ht. split; [| apply gauss_le_1].
    unfold gauss.
    destruct (Req_dec_T (t * t) (a * a + b * b)) as [E | E].
    - rewrite E. apply Rle_refl.
    - left. apply exp_increasing.
      assert (t * t <= a * a + b * b) by (destruct (Rle_dec 0 t); nra).
      lra. }
  pose proof (exp_pos (- (a * a + b * b))). nra.
Qed.

Lemma sqrt_PI_pos : 0 < sqrt PI.
Proof. apply sqrt_lt_R0, PI_RGT_0. Qed.

Lemma erf_scale_pos : 0 < 2 / sqrt PI.
Proof. apply Rdiv_lt_0_compat; [lra | apply sqrt_PI_pos]. Qed.

Lemma erf_0 : erf 0 = 0.
Proof. unfold erf. rewrite gauss_int_refl. ring. Qed.

Lemma erfc_0 : erfc 0 = 1.
Proof. unfold erfc. rewrite erf_0. ring. Qed.

Lemma erf_diff (x y : R) : erf y - erf x = 2 / sqrt PI * gauss_int x y.
Proof.
  unfold erf. rewrite <- (gauss_int_chasles 0 x y). ring.
Qed.

Lemma erf_increasing (x y : R) : x < y -> erf x < erf y.
Proof.
  intros Hxy.
  pose proof (erf_diff x y) as H.
  pose proof (Rmult_lt_0_compat _ _ erf_scale_pos (gauss_int_pos x y Hxy)).
  lra.
Qed.

Lemma erfc_decreasing (x y : R) : x < y -> erfc y < erfc x.
Proof. intros H. unfold erfc. apply erf_increasing in H. lra. Qed.

Lemma erfc_nonincreasing (x y : R) : x <= y -> erfc y <= erfc x.
Proof.
  intros [H | ->]; [left; apply erfc_decreasing, H | right; reflexivity].
Qed.

Lemma erfc_injective (x y : R) : erfc x = erfc y -> x = y.
Proof.
  intros E.
  destruct (Rtotal_order x y) as [H | [H | H]]; [| exact H |];
    apply erfc_decreasing in H; lra.
Qed.

(** On the non-positive side [erfc] is at least one. *)
Lemma erfc_neg_ge_1 (n : R) : 0 <= n -> 1 <= erfc (- n).
Proof.
  intros Hn.
  replace 1 with (erfc 0) by apply erfc_0.
  apply erfc_nonincreasing. lra.
Qed.

Lemma erfc_neg_pos (n : R) : 0 <= n -> 0 < erfc (- n).
Proof. intros Hn. pose proof (erfc_neg_ge_1 n Hn). lra. Qed.

(** ** Taylor bounds of the exponential *)

(** A function whose derivative is not negative on [[a, b]] does not
    decrease from [a] to [b]. *)
Lemma nonneg_deriv_incr (f f' : R -> R) (a b : R) :
  a <= b ->
  (forall c, a <= c <= b -> derivable_pt_lim f c (f' c)) ->
  (forall c, a <= c <= b -> 0 <= f' c) ->
  f a <= f b.
Proof.
  intros [Hab | ->] Hd Hp; [| lra].
  destruct (MVT_cor2 f f' a b Hab Hd) as [c [E Hc]].
  assert (0 <= f' c) by (apply Hp; lra).
  nra.
Qed.

Lemma deriv_neg_pow (m : nat) (u : R) :
  derivable_pt_lim (fun y => (- y) ^ m) u (- (INR m * (- u) ^ pred m)).
Proof.
  assert (H1 : derivable_pt_lim (fun y => - y) u (- 1)).
  { apply (derivable_pt_lim_opp id u 1), derivable_pt_lim_id. }
  pose proof (derivable_pt_lim_comp (fun y => - y) (fun y => y ^ m) u _ _ H1
                (derivable_pt_lim_pow (- u) m)) as H.
  replace (- (INR m * (- u) ^ pred m)) with (INR m * (- u) ^ pred m * - 1) by ring.
  exact H.
Qed.

Lemma texp_deriv (n : nat) (u : R) : derivable_pt_lim (texp n) u (dtexp n u).
Proof.
  induction n as [| n IH].
  - apply (derivable_pt_lim_const 1).
  - pose proof (derivable_pt_lim_scal _ (/ INR (fact (S n))) u _ (deriv_neg_pow (S n) u)) as Ht.
    pose proof (derivable_pt_lim_plus _ _ u _ _ IH Ht) as H.
    replace (dtexp (S n) u)
      with (dtexp n u + / INR (fact (S n)) * - (INR (S n) * (- u) ^ pred (S n))); [exact H |].
    cbn [pred dtexp].
    assert (Hf : INR (fact n) <> 0) by apply INR_fact_neq_0.
    assert (Hs : INR (S n) <> 0) by (apply not_0_INR; discriminate).
    replace (INR (fact (S n))) with (INR (S n) * INR (fact n))
      by (rewrite <- mult_INR; reflexivity).
    destruct n as [| k].
    + cbn. field.
    + cbn [dtexp texp]. field. split; assumption.
Qed.

Lemma texp_at_0 (n : nat) : texp n 0 = 1.
Proof.
  induction n as [| n IH]; [reflexivity |].
  cbn [texp]. rewrite IH, Ropp_0, pow_i by lia. ring.
Qed.

Lemma exp_neg_deriv (u : R) : derivable_pt_lim (fun y => exp (- y)) u (- exp (- u)).
Proof.
  assert (H1 : derivable_pt_lim (fun y => - y) u (- 1)).
  { apply (derivable_pt_lim_opp id u 1), derivable_pt_lim_id. }
  pose proof (derivable_pt_lim_comp (fun y => - y) exp u _ _ H1
                (derivable_pt_lim_exp (- u))) as H.
  replace (- exp (- u)) with (exp (- u) * - 1) by ring.
  exact H.
Qed.

(** Alternating Taylor bounds of [exp(-u)] for [u >= 0]. *)
Lemma texp_alt (n : nat) (u : R) :
  0 <= u -> 0 <= (- 1) ^ S n * (exp (- u) - texp n u).
Proof.
  revert u. induction n as [| n IH]; intros u Hu.
  - cbn. assert (exp (- u) <= 1).
    { rewrite <- exp_0. destruct Hu as [Hu | <-]; [left; apply exp_increasing; lra | rewrite Ropp_0; lra]. }
    lra.
  - set (g := fun y => (- 1) ^ S (S n) * (exp (- y) - texp (S n) y)).
    set (g' := fun y => (- 1) ^ S n * (exp (- y) - texp n y)).
    assert (Hg0 : g 0 = 0).
    { unfold g. rewrite texp_at_0, Ropp_0, exp_0. ring. }
    change (0 <= g u). rewrite <- Hg0.
    apply (nonneg_deriv_incr g g' 0 u Hu).
    + intros c _. unfold g, g'.
      pose proof (derivable_pt_lim_minus _ _ c _ _ (exp_neg_deriv c) (texp_deriv (S n) c)) as H.
      pose proof (derivable_pt_lim_scal _ ((- 1) ^ S (S n)) c _ H) as H'.
      replace ((- 1) ^ S n * (exp (- c) - texp n c))
        with ((- 1) ^ S (S n) * (- exp (- c) - dtexp (S n) c)); [exact H' |].
      cbn [dtexp pow]. ring.
    + intros c Hc. unfold g'. apply IH. lra.
Qed.

Lemma texp_lower (k : nat) (u : R) : 0 <= u -> texp (S (2 * k)) u <= exp (- u).
Proof.
  intros Hu. pose proof (texp_alt (S (2 * k)) u Hu) as H.
  replace ((- 1) ^ S (S (2 * k))) with 1 in H; [lra |].
  change (S (S (2 * k))) with (2 + 2 * k)%nat.
  replace (2 + 2 * k)%nat with (2 * (S k))%nat by lia.
  rewrite pow_1_even. reflexivity.
Qed.

Lemma texp_upper (k : nat) (u : R) : 0 <= u -> exp (- u) <= texp (2 * k) u.
Proof.
  intros Hu. pose proof (texp_alt (2 * k) u Hu) as H.
  replace ((- 1) ^ S (2 * k)) with (- 1) in H; [lra |].
  rewrite pow_1_odd. reflexivity.
Qed.



(** ** Bounds of the Gaussian integral *)

(** The integral of the Gaussian, as a function of its upper end, has the
    Gaussian for derivative. *)
Lemma gauss_int_deriv (a x : R) :
  derivable_pt_lim (fun y => gauss_int a y) x (gauss x).
Proof.
  set (lo := Rmin a x - 1). set (hi := x + 1).
  assert (Hlo : lo < x) by (unfold lo; pose proof (Rmin_r a x); lra).
  assert (Hloa : lo < a) by (unfold lo; pose proof (Rmin_l a x); lra).
  assert (h : lo <= hi) by (unfold hi; lra).
  assert (C0 : forall t : R, lo <= t <= hi -> continuity_pt gauss t)
    by (intros t _; apply gauss_continuity).
  pose proof (RiemannInt_P27 h C0 (conj Hlo (Rlt_plus_1 x))) as Hp.
  pose proof (derivable_pt_lim_minus _ _ x _ _ Hp (derivable_pt_lim_const (gauss_int lo a) x)) as H.
  replace (gauss x) with (gauss x - 0) by ring.
  apply (derivable_pt_lim_locally_ext _ (fun y => gauss_int a y) x lo hi _ (conj Hlo (Rlt_plus_1 x))) in H;
    [exact H |].
  intros z [Hz1 Hz2]. unfold minus_fct, fct_cte, primitive.
  destruct (Rle_dec lo z) as [r | n]; [| lra].
  destruct (Rle_dec z hi) as [r0 | n]; [| lra].
  rewrite (RiemannInt_P5 (FTC_P1 h C0 r r0) (gauss_integrable lo z)).
  fold (gauss_int lo z). rewrite <- (gauss_int_chasles lo a z). ring.
Qed.

(** Comparison of the Gaussian integral with an antiderivative. *)
Lemma gauss_int_above (P p : R -> R) (a b : R) :
  a <= b ->
  (forall t, a <= t <= b -> derivable_pt_lim P t (p t)) ->
  (forall t, a <= t <= b -> p t <= gauss t) ->
  P b - P a <= gauss_int a b.
Proof.
  intros Hab HP Hle.
  pose proof (nonneg_deriv_incr (fun y => gauss_int a y - P y) (fun y => gauss y - p y) a b Hab) as H.
  cbv beta in H. rewrite gauss_int_refl in H.
  assert (gauss_int a a - P a <= gauss_int a b - P b) as H'.
  { rewrite gauss_int_refl. apply H.
    - intros c Hc. apply (derivable_pt_lim_minus _ _ c _ _ (gauss_int_deriv a c) (HP c Hc)).
    - intros c Hc. specialize (Hle c Hc). lra. }
  rewrite gauss_int_refl in H'. lra.
Qed.

Lemma gauss_int_below (P p : R -> R) (a b : R) :
  a <= b ->
  (forall t, a <= t <= b -> derivable_pt_lim P t (p t)) ->
  (forall t, a <= t <= b -> gauss t <= p t) ->
  gauss_int a b <= P b - P a.
Proof.
  intros Hab HP Hle.
  pose proof (nonneg_deriv_incr (fun y => P y - gauss_int a y) (fun y => p y - gauss y) a b Hab) as H.
  cbv beta in H. rewrite gauss_int_refl in H.
  assert (P a - 0 <= P b - gauss_int a b) as H'.
  { apply H.
    - intros c Hc. apply (derivable_pt_lim_minus _ _ c _ _ (HP c Hc) (gauss_int_deriv a c)).
    - intros c Hc. specialize (Hle c Hc). lra. }
  lra.
Qed.

Lemma neg_sq_pow (t : R) (j : nat) : (- (t * t)) ^ j = (- 1) ^ j * t ^ (2 * j).
Proof.
  replace (- (t * t)) with (- 1 * t ^ 2) by ring.
  rewrite Rpow_mult_distr, pow_mult. reflexivity.
Qed.

Lemma terf_deriv (n : nat) (t : R) : derivable_pt_lim (terf n) t (texp n (t * t)).
Proof.
  induction n as [| n IH].
  - apply derivable_pt_lim_id.
  - pose proof (derivable_pt_lim_scal _
                  ((- 1) ^ S n * / INR (fact (S n)) * / INR (S (2 * S n))) t _
                  (derivable_pt_lim_pow t (S (2 * S n)))) as Ht.
    pose proof (derivable_pt_lim_plus _ _ t _ _ IH Ht) as H.
    cbn [texp]. rewrite neg_sq_pow.
    replace (/ INR (fact (S n)) * ((- 1) ^ S n * t ^ (2 * S n)))
      with ((- 1) ^ S n * / INR (fact (S n)) * / INR (S (2 * S n))
            * (INR (S (2 * S n)) * t ^ pred (S (2 * S n)))); [exact H |].
    cbn [pred]. field.
    split; first [apply INR_fact_neq_0 | apply not_0_INR; discriminate].
Qed.

Lemma terf_odd (n : nat) (t : R) : terf n (- t) = - terf n t.
Proof.
  induction n as [| n IH]; [reflexivity |].
  cbn [terf]. rewrite IH.
  replace ((- t) ^ S (2 * S n)) with (- t ^ S (2 * S n)); [ring |].
  rewrite <- !tech_pow_Rmult. rewrite pow_mult, pow_mult.
  replace ((- t) ^ 2) with (t ^ 2) by ring. ring.
Qed.

Lemma terf_at_0 (n : nat) : terf n 0 = 0.
Proof.
  induction n as [| n IH]; [reflexivity |].
  cbn [terf]. rewrite IH, pow_i by lia. ring.
Qed.

(** Bounds of the Gaussian integral over [[-x, 0]]. *)
Lemma gauss_int_bounds (k : nat) (x : R) :
  0 <= x ->
  terf (S (2 * k)) x <= gauss_int (- x) 0 <= terf (2 * k) x.
Proof.
  intros Hx. split.
  - replace (terf (S (2 * k)) x) with (terf (S (2 * k)) 0 - terf (S (2 * k)) (- x)).
    + apply (gauss_int_above (terf (S (2 * k))) (fun t => texp (S (2 * k)) (t * t))); [lra | |].
      * intros t _. apply terf_deriv.
      * intros t _. apply texp_lower. nra.
    + rewrite terf_odd, terf_at_0. ring.
  - replace (terf (2 * k) x) with (terf (2 * k) 0 - terf (2 * k) (- x)).
    + apply (gauss_int_below (terf (2 * k)) (fun t => texp (2 * k) (t * t))); [lra | |].
      * intros t _. apply terf_deriv.
      * intros t _. apply texp_upper. nra.
    + rewrite terf_odd, terf_at_0. ring.
Qed.

(** ** Numerical enclosures *)

Lemma INR_fact_Z (n : nat) : INR (fact n) = IZR (Zfact n).
Proof.
  induction n as [| n IH]; [reflexivity |].
  rewrite fact_simpl, mult_INR, IH, (INR_IZR_INZ (S n)), <- mult_IZR. reflexivity.
Qed.

Ltac inr_to_z :=
  repeat match goal with
         | |- context [INR (fact ?n)] =>
             let z := eval vm_compute in (Zfact n) in
             rewrite (INR_fact_Z n); change (Zfact n) with z
         end;
  repeat match goal with
         | |- context [INR ?n] =>
             let z := eval vm_compute in (Z.of_nat n) in
             replace (INR n) with (IZR z) by (rewrite (INR_IZR_INZ n); reflexivity)
         end.

Lemma PI_enclosure : 3.14159265 < PI < 3.14159266.
Proof.
  pose proof (PI_2_3_7_ineq 4) as H.
  unfold PI_2_3_7_tg, Ratan_seq, tg_alt in H.
  cbn [sum_f_R0 Nat.mul Nat.add] in H.
  revert H. inr_to_z. intros [Hlo Hhi].
  split; lra.
Qed.

Lemma sqrt_PI_enclosure : 1.7724538 < sqrt PI < 1.7724539.
Proof.
  pose proof PI_enclosure as [Hlo Hhi].
  pose proof sqrt_PI_pos as Hp.
  pose proof (sqrt_sqrt PI (Rlt_le _ _ PI_RGT_0)) as Hs.
  split; nra.
Qed.

Lemma erf_scale_enclosure : 1.12837913 < 2 / sqrt PI < 1.12837920.
Proof.
  pose proof sqrt_PI_enclosure as [Hlo Hhi].
  assert (E : 2 / sqrt PI * sqrt PI = 2) by (field; lra).
  pose proof erf_scale_pos as Hq.
  split; nra.
Qed.

Lemma erfc_neg (x : R) : erfc (- x) = 1 + 2 / sqrt PI * gauss_int (- x) 0.
Proof. unfold erfc, erf. rewrite (gauss_int_swap 0 (- x)). ring. Qed.

Lemma gauss_int_0653 : 0.57094605 < gauss_int (- (0.653)) 0 < 0.57094609.
Proof.
  assert (H : 0 <= 0.653) by lra.
  apply (gauss_int_bounds 3) in H. revert H.
  cbn [terf Nat.mul Nat.add]. inr_to_z. intros [Hlo Hhi].
  split; lra.
Qed.

Lemma gauss_int_small :
  0.03138197 < gauss_int (- (404207 / 12876000)) 0 < 0.03138198.
Proof.
  assert (H : 0 <= 404207 / 12876000) by lra.
  apply (gauss_int_bounds 1) in H. revert H.
  cbn [terf Nat.mul Nat.add]. inr_to_z. intros [Hlo Hhi].
  split; lra.
Qed.



(** ** Evaluation of the tests on reals *)

Lemma is_zero_false (r : R) : r <> 0 -> is_zero r = false.
Proof. intros H. unfold is_zero. destruct (Req_dec_T r 0); [contradiction | reflexivity]. Qed.

Lemma is_zero_true (r : R) : r = 0 -> is_zero r = true.
Proof. intros H. unfold is_zero. destruct (Req_dec_T r 0); [reflexivity | contradiction]. Qed.

Lemma is_neg_false (r : R) : 0 <= r -> is_neg r = false.
Proof. intros H. unfold is_neg. destruct (Rlt_dec r 0); [lra | reflexivity]. Qed.

Lemma is_neg_true (r : R) : r < 0 -> is_neg r = true.
Proof. intros H. unfold is_neg. destruct (Rlt_dec r 0); [reflexivity | lra]. Qed.

(** A division whose divisor is finite and not zero returns the quotient,
    whatever the kinds of the operands. *)
Lemma py_truediv_fin (ka kb : kind) (x y : R) :
  y <> 0 ->
  py_truediv (Num ka (Fin x)) (Num kb (Fin y)) = Return (Num (join ka kb) (Fin (x / y))).
Proof.
  intros Hy. unfold py_truediv. simpl.
  rewrite (is_zero_false y Hy).
  destruct (join ka kb); reflexivity.
Qed.

(** ** [calculo_capacidade] on finite arguments *)

Lemma calculo_capacidade_fin (kC ki kk kn : kind) (Cm i ik n : R) :
  erfc (- n) <> 0 -> ik <> 0 -> n <> 0 ->
  calculo_capacidade (Num kC (Fin Cm)) (Num ki (Fin i)) (Num kk (Fin ik)) (Num kn (Fin n))
  = Return (Num Np (Fin (capacity_code Cm i ik n))).
Proof.
  intros He Hik Hn.
  assert (Hu : 1 / n <> 0).
  { unfold Rdiv. rewrite Rmult_1_l. apply Rinv_neq_0_compat, Hn. }
  unfold calculo_capacidade, sp_erfc, py_neg, py_int. cbn [num_val num_kind xopp xerfc].
  rewrite (py_truediv_fin kC Np Cm (erfc (- n)) He). cbn [bind].
  rewrite (py_truediv_fin ki kk i ik Hik). cbn [bind].
  rewrite (py_truediv_fin Py kn 1 n Hn). cbn [bind].
  unfold py_sub. cbn [num_val num_kind xsub].
  rewrite (py_truediv_fin _ _ (i / ik - 1) (1 / n) Hu). cbn [bind].
  unfold py_mul, capacity_code. cbn [num_val num_kind xmul xerfc].
  destruct kC; reflexivity.
Qed.

Lemma capacity_code_mult (Cm i ik n : R) :
  n <> 0 -> capacity_code Cm i ik n = (Cm / erfc (- n)) * erfc (((i / ik) - 1) * n).
Proof.
  intros Hn. unfold capacity_code. f_equal. f_equal.
  generalize (i / ik - 1). intros z. field. exact Hn.
Qed.

(** C1, as amended.  For valid arguments [calculo_capacidade] returns
    [(Cm / erfc(-n)) * erfc(((i/ik) - 1) * n)]: the normalised argument is
    divided by [1/n], that is multiplied by [n] (not by its inverse). *)
Theorem calculo_capacidade_formula (kC ki kk kn : kind) (Cm i ik n : R) :
  0 < Cm -> 0 < ik -> 0 < n -> 0 <= i ->
  calculo_capacidade (Num kC (Fin Cm)) (Num ki (Fin i)) (Num kk (Fin ik)) (Num kn (Fin n))
  = Return (np_float ((Cm / erfc (- n)) * erfc (((i / ik) - 1) * n))).
Proof.
  intros HCm Hik Hn Hi.
  rewrite calculo_capacidade_fin.
  - rewrite capacity_code_mult by lra. reflexivity.
  - pose proof (erfc_neg_pos n). lra.
  - lra.
  - lra.
Qed.

Lemma calculo_capacidade_formula_witness :
  calculo_capacidade (np_float 61.285) (py_float 306.425) (np_float 321.9) (np_float 0.653)
  = Return (np_float ((61.285 / erfc (- (0.653))) * erfc (((306.425 / 321.9) - 1) * 0.653))).
Proof.
  apply (calculo_capacidade_formula Np Py Np Np 61.285 306.425 321.9 0.653); lra.
Defined.

(** C1 as the specification words it fails: at [Cm = 1], [i = 0], [ik = 1],
    [n = 2] the code returns [erfc(-2) / erfc(-2)], the specification's
    formula gives [erfc(-1/2) / erfc(-2)]. *)
Lemma calculo_capacidade_not_capacity_spec :
  0 < 1 /\ 0 < 1 /\ 0 < 2 /\ 0 <= 0 /\
  calculo_capacidade (py_float 1) (py_float 0) (py_float 1) (py_float 2)
  <> Return (np_float (capacity_spec 1 0 1 2)).
Proof.
  repeat (split; [lra |]).
  unfold py_float. rewrite calculo_capacidade_fin.
  - intros H. injection H as H.
    unfold capacity_code, capacity_spec in H. cbv zeta in H.
    pose proof (erfc_neg_pos 2) as Hp.
    assert (E : erfc ((0 / 1 - 1) / (1 / 2)) = erfc ((0 / 1 - 1) * (1 / 2))).
    { apply (Rmult_eq_reg_l (1 / erfc (- (2)))); [exact H |].
      apply Rgt_not_eq. apply Rdiv_lt_0_compat; lra. }
    apply erfc_injective in E. lra.
  - pose proof (erfc_neg_pos 2). lra.
  - lra.
  - lra.
Qed.

(** For valid arguments the code and the specification's formula agree
    only at [n = 1] or at [i = ik]. *)
Lemma capacity_code_eq_spec (Cm i ik n : R) :
  0 < Cm -> 0 < ik -> 0 < n ->
  capacity_code Cm i ik n = capacity_spec Cm i ik n <-> n = 1 \/ i = ik.
Proof.
  intros HCm Hik Hn.
  pose proof (erfc_neg_pos n) as Hp.
  rewrite capacity_code_mult by lra. unfold capacity_spec. cbv zeta.
  assert (Hq : Cm / erfc (- n) <> 0).
  { apply Rgt_not_eq, Rdiv_lt_0_compat; lra. }
  assert (Hz : i / ik - 1 = 0 <-> i = ik).
  { split; intros E.
    - apply (Rmult_eq_reg_r (/ ik)); [| apply Rinv_neq_0_compat; lra].
      unfold Rdiv in E. rewrite Rinv_r by lra. lra.
    - rewrite E. field. lra. }
  set (z := i / ik - 1) in *.
  split.
  - intros E. apply Rmult_eq_reg_l in E; [| exact Hq].
    apply erfc_injective in E.
    assert (E' : z * (n * n - 1) = 0).
    { replace (z * (n * n - 1)) with ((z * n - z * (1 / n)) * n) by (field; lra).
      rewrite E. ring. }
    apply Rmult_integral in E'. destruct E' as [E' | E'].
    + right. apply Hz, E'.
    + left. nra.
  - intros [-> | E].
    + do 2 f_equal. field.
    + apply Hz in E. rewrite E. do 2 f_equal. ring.
Qed.

(** C6.  At [i = ik] the capacity is [Cm / erfc(-n)]. *)
Theorem calculo_capacidade_at_ik (kC ki kk kn : kind) (Cm ik n : R) :
  0 < Cm -> 0 < ik -> 0 < n ->
  calculo_capacidade (Num kC (Fin Cm)) (Num ki (Fin ik)) (Num kk (Fin ik)) (Num kn (Fin n))
  = Return (np_float (Cm / erfc (- n))).
Proof.
  intros HCm Hik Hn.
  rewrite calculo_capacidade_fin.
  - unfold capacity_code, np_float. do 3 f_equal.
    replace ((ik / ik - 1) / (1 / n)) with 0 by (field; lra).
    rewrite erfc_0. ring.
  - pose proof (erfc_neg_pos n). lra.
  - lra.
  - lra.
Qed.

Lemma calculo_capacidade_at_ik_witness :
  calculo_capacidade (py_float 61.285) (py_float 321.9) (py_float 321.9) (py_float 0.653)
  = Return (np_float (61.285 / erfc (- (0.653)))).
Proof.
  apply (calculo_capacidade_at_ik Py Py Py Py 61.285 321.9 0.653); lra.
Defined.

(** The real number that [calculo_capacidade] rounds does not increase
    with the current.  (Whether two binary64 results that are closer than one
    rounding step keep that order is decided by the rounding of
    [scipy.special.erfc], which is outside this development.) *)
Lemma capacity_code_nonincreasing (Cm ik n i1 i2 : R) :
  0 < Cm -> 0 < ik -> 0 < n -> i1 <= i2 ->
  capacity_code Cm i2 ik n <= capacity_code Cm i1 ik n.
Proof.
  intros HCm Hik Hn Hi.
  pose proof (erfc_neg_pos n) as Hp.
  rewrite !capacity_code_mult by lra.
  apply Rmult_le_compat_l.
  - left. apply Rdiv_lt_0_compat; lra.
  - apply erfc_nonincreasing.
    apply Rmult_le_compat_r; [lra |].
    apply Rplus_le_compat_r.
    apply Rmult_le_compat_r; [| exact Hi].
    left. apply Rinv_0_lt_compat, Hik.
Qed.

(** ** [calculo_capacidade] with [ik = 0] *)

Lemma calculo_capacidade_zero_py (Cm n : num) (i : xfloat) :
  calculo_capacidade Cm (Num Py i) (py_float 0) n = Raise ZeroDivisionError.
Proof.
  destruct Cm as [kC Cm], n as [kn n].
  unfold calculo_capacidade, py_truediv, sp_erfc, py_neg, py_float.
  cbn [num_kind num_val join bind is_zero_x].
  replace (join kC Np) with Np by (destruct kC; reflexivity).
  cbn [bind]. rewrite (is_zero_true 0 eq_refl). reflexivity.
Qed.

Lemma calculo_capacidade_zero_np (kC ki kk kn : kind) (Cm i n : R) :
  join ki kk = Np -> 0 < i -> 0 < n ->
  calculo_capacidade (Num kC (Fin Cm)) (Num ki (Fin i)) (Num kk (Fin 0)) (Num kn (Fin n))
  = Return (np_float 0).
Proof.
  intros Hk Hi Hn.
  pose proof (erfc_neg_pos n) as Hp.
  unfold calculo_capacidade, sp_erfc, py_neg, py_int.
  cbn [num_val num_kind xopp xerfc].
  rewrite (py_truediv_fin kC Np Cm (erfc (- n))) by lra. cbn [bind].
  unfold py_truediv at 1. cbn [num_val num_kind]. rewrite Hk.
  cbn [bind xdiv]. rewrite (is_zero_true 0 eq_refl), (is_zero_false i) by lra.
  rewrite (is_neg_false i) by lra. cbn [inf_of].
  rewrite (py_truediv_fin Py kn 1 n) by lra. cbn [bind].
  unfold py_sub, py_truediv. cbn [num_val num_kind join xsub xdiv bind].
  assert (Hu : 0 < 1 / n) by (apply Rdiv_lt_0_compat; lra).
  rewrite (is_neg_false (1 / n)) by lra. cbn [inf_of].
  unfold py_mul, np_float. cbn [num_val num_kind xerfc xmul].
  replace (join (join kC Np) Np) with Np by (destruct kC; reflexivity).
  do 3 f_equal. ring.
Qed.

(** C8, as amended.  With [ik = 0]: when [i] and [ik] are both Python
    numbers the call raises [ZeroDivisionError] (from [i/ik]); as soon as one
    of them is a numpy scalar nothing is raised, and for [i > 0], [n > 0] the
    call returns [0] ([i/ik] is [inf] and [erfc(inf) = 0]). *)
Theorem calculo_capacidade_ik_zero :
  (forall (Cm n : num) (i : xfloat),
      calculo_capacidade Cm (Num Py i) (py_float 0) n = Raise ZeroDivisionError) /\
  (forall (kC ki kk kn : kind) (Cm i n : R),
      join ki kk = Np -> 0 < i -> 0 < n ->
      calculo_capacidade (Num kC (Fin Cm)) (Num ki (Fin i)) (Num kk (Fin 0)) (Num kn (Fin n))
      = Return (np_float 0)).
Proof.
  split.
  - exact calculo_capacidade_zero_py.
  - exact calculo_capacidade_zero_np.
Qed.

Lemma calculo_capacidade_ik_zero_witness :
  calculo_capacidade (np_float 61.285) (py_float 306.425) (np_float 0) (np_float 0.653)
  = Return (np_float 0).
Proof.
  apply (proj2 calculo_capacidade_ik_zero Np Py Np Np 61.285 306.425 0.653);
    [reflexivity | lra | lra].
Defined.

(** C8 as stated fails: with the fitted parameters as [main] passes them
    (numpy scalars) and [ik = 0], no exception is raised. *)
Lemma calculo_capacidade_ik_zero_no_error :
  0 < 61.285 /\ 0 <= 306.425 /\ 0 < 0.653 /\
  forall e : exn,
    calculo_capacidade (np_float 61.285) (py_float 306.425) (np_float 0) (np_float 0.653)
    <> Raise e.
Proof.
  repeat (split; [lra |]).
  intros e.
  unfold np_float, py_float.
  rewrite (calculo_capacidade_zero_np Np Py Np Np 61.285 306.425 0.653);
    [discriminate | reflexivity | lra | lra].
Qed.

(** The array form behaves the same way: [modelo] with [ik = 0] on the
    fixed currents returns an array of zeros. *)
Lemma modelo_ik_zero :
  modelo (np_array [61.285; 0.653; 0]) (np_array [612.85; 459.6375; 306.425])
  = Return (np_array [0; 0; 0]).
Proof.
  unfold modelo, np_array, arr_scal, scal_arr. cbn [map xopp xerfc xdiv xsub].
  pose proof (erfc_neg_pos 0.653) as Hp.
  rewrite (is_zero_true 0 eq_refl).
  rewrite !is_zero_false by lra.
  rewrite !is_neg_false by lra.
  cbn [inf_of xsub xdiv xerfc xmul]. rewrite !is_neg_false by lra.
  cbn [inf_of xerfc xmul]. rewrite !Rmult_0_r. reflexivity.
Qed.

(** ** The range of binary64 *)

Lemma float_tiny_pos : 0 < float_tiny.
Proof. unfold float_tiny. apply Rinv_0_lt_compat, pow_lt. lra. Qed.

Lemma float_bounds : float_tiny <= / 1000 /\ 1000 <= float_max.
Proof. unfold float_tiny, float_max. split; lra. Qed.

Lemma in_range_of_bounds (r : R) : / 1000 <= r <= 1000 -> in_range r.
Proof. intros [H1 H2]. pose proof float_bounds as [Ht Hm]. split; lra. Qed.

Lemma ordinary_pos (r : R) : ordinary r -> 0 < r.
Proof.
  intros [H _]. apply Rlt_le_trans with (/ 2 ^ 100); [| exact H].
  apply Rinv_0_lt_compat, pow_lt. lra.
Qed.

Lemma ordinary_in_range (r : R) : ordinary r -> in_range r.
Proof. intros [H1 H2]. unfold in_range, float_tiny, float_max. split; lra. Qed.

Lemma ordinary_product_in_range (x y : R) :
  ordinary x -> ordinary y -> in_range (x * y).
Proof.
  intros Hx Hy.
  pose proof (ordinary_pos x Hx) as Hx0. pose proof (ordinary_pos y Hy) as Hy0.
  destruct Hx as [Hx1 Hx2], Hy as [Hy1 Hy2].
  assert (Hi : 0 < / 2 ^ 100) by (apply Rinv_0_lt_compat, pow_lt; lra).
  assert (L : / 2 ^ 100 * / 2 ^ 100 <= x * y) by (apply Rmult_le_compat; lra).
  assert (U : x * y <= 2 ^ 100 * 2 ^ 100) by (apply Rmult_le_compat; lra).
  unfold in_range, float_tiny, float_max. split; lra.
Qed.

Lemma pow_range_in (r : R) : in_range r -> pow_range r = Fin r.
Proof.
  intros [H1 H2]. unfold pow_range.
  destruct (Rlt_dec float_max r); [lra |].
  destruct (Rlt_dec r float_tiny); [lra | reflexivity].
Qed.

(** A power that does not overflow is a finite value, zero if it
    underflows. *)
Lemma pow_range_le (r : R) :
  0 < r -> r <= float_max -> exists v : R, 0 <= v /\ pow_range r = Fin v.
Proof.
  intros H0 H. unfold pow_range.
  destruct (Rlt_dec float_max r); [lra |].
  destruct (Rlt_dec r float_tiny); [exists 0 | exists r]; split; (lra || reflexivity).
Qed.


(** A base of at least one to an exponent between 0 and 1. *)
Lemma Rpower_between (x y : R) :
  1 <= x -> 0 <= y <= 1 -> 1 <= Rpower x y <= x.
Proof.
  intros Hx [Hy0 Hy1]. split.
  - rewrite <- (Rpower_O x) by lra. apply Rle_Rpower; lra.
  - rewrite <- (Rpower_1 x) at 2 by lra. apply Rle_Rpower; lra.
Qed.

(** A base between 1/10 and 100 to an exponent between 0 and 1. *)
Lemma Rpower_ordinary (x y : R) :
  / 10 <= x <= 100 -> 0 <= y <= 1 -> / 10 <= Rpower x y <= 100.
Proof.
  intros [Hx1 Hx2] Hy.
  pose proof (Rpower_between 100 y ltac:(lra) Hy) as [_ H100].
  pose proof (Rpower_between 10 y ltac:(lra) Hy) as [H1 H10].
  assert (E : Rpower (/ 10) y * Rpower 10 y = 1).
  { rewrite Rpower_mult_distr by lra.
    replace (/ 10 * 10) with 1 by lra. unfold Rpower. rewrite ln_1, Rmult_0_r. apply exp_0. }
  pose proof (exp_pos (y * ln (/ 10))) as Hp. fold (Rpower (/ 10) y) in Hp.
  assert (Hlo : / 10 <= Rpower (/ 10) y) by nra.
  split.
  - apply Rle_trans with (1 := Hlo). apply Rle_Rpower_l; lra.
  - apply Rle_trans with (2 := H100). apply Rle_Rpower_l; lra.
Qed.

(** ** [peukert] *)

(** A positive finite base to a finite power, within range. *)
Lemma py_pow_pos (ka kb : kind) (x y : R) :
  0 < x -> in_range (Rpower x y) ->
  py_pow (Num ka (Fin x)) (Num kb (Fin y)) = Return (Real (Num (join ka kb) (Fin (Rpower x y)))).
Proof.
  intros Hx Hr. unfold py_pow, xpow. cbn [num_kind num_val].
  destruct (Req_dec_T y 0) as [-> | Hy].
  - rewrite (is_zero_true 0 eq_refl), (Rpower_O x Hx).
    destruct (join ka kb); reflexivity.
  - rewrite (is_zero_false y Hy), (is_zero_false x) by lra.
    rewrite (is_neg_false x) by lra. rewrite (pow_range_in _ Hr).
    cbn [andb]. destruct (join ka kb); reflexivity.
Qed.

(** A positive finite base to a finite power that does not overflow: a
    finite value is returned, whatever the kinds. *)
Lemma py_pow_pos_le (ka kb : kind) (x y : R) :
  0 < x -> Rpower x y <= float_max ->
  exists v : R,
    0 <= v /\
    py_pow (Num ka (Fin x)) (Num kb (Fin y))
    = Return (Real (Num (join ka kb) (Fin v))).
Proof.
  intros Hx Hr. unfold py_pow, xpow. cbn [num_kind num_val].
  destruct (Req_dec_T y 0) as [-> | Hy].
  - rewrite (is_zero_true 0 eq_refl). exists 1. split; [lra |].
    destruct (join ka kb); reflexivity.
  - rewrite (is_zero_false y Hy), (is_zero_false x) by lra.
    rewrite (is_neg_false x) by lra.
    destruct (pow_range_le (Rpower x y) (exp_pos _) Hr) as [v [Hv E]]. rewrite E.
    exists v. split; [exact Hv |].
    cbn [andb]. destruct (join ka kb); reflexivity.
Qed.


Lemma peukert_fin (kn kR ki kC : kind) (n C_rating i C : R) :
  0 < C_rating -> 0 < i -> 0 < C ->
  in_range (Rpower (C / (1 / C_rating)) n) -> in_range (Rpower i n) ->
  peukert (Num kn (Fin n)) (Num kR (Fin C_rating)) (Num ki (Fin i)) (Num kC (Fin C))
  = Return (Num (join4 kn kR ki kC) (Fin (duration_spec n C_rating i C))).
Proof.
  intros HR Hi HC Hp Hd.
  assert (HR' : 0 < 1 / C_rating) by (apply Rdiv_lt_0_compat; lra).
  assert (Hb : 0 < C / (1 / C_rating)) by (apply Rdiv_lt_0_compat; lra).
  unfold peukert, py_int.
  rewrite (py_truediv_fin Py kR 1 C_rating) by lra. cbn [bind scaled_quotient].
  rewrite (py_truediv_fin kC _ C (1 / C_rating)) by lra. cbn [bind scaled_quotient].
  rewrite (py_pow_pos _ kn _ n Hb Hp). cbn [bind scaled_quotient].
  rewrite (py_pow_pos ki kn i n Hi Hd). cbn [bind scaled_quotient].
  unfold py_mul. cbn [num_kind num_val xmul].
  rewrite py_truediv_fin by (apply Rgt_not_eq, exp_pos).
  unfold duration_spec, join4. cbv zeta.
  destruct kn, kR, ki, kC; reflexivity.
Qed.

(** The two powers of the documented example are within range. *)
Lemma example_powers_in_range :
  in_range (Rpower (6 / (1 / 100)) 0.653) /\ in_range (Rpower 80 0.653).
Proof.
  split; apply in_range_of_bounds.
  - replace (6 / (1 / 100)) with 600 by lra.
    pose proof (Rpower_between 600 0.653 ltac:(lra) ltac:(lra)). lra.
  - pose proof (Rpower_between 80 0.653 ltac:(lra) ltac:(lra)). lra.
Qed.









(** ** [encontrar_parametros] *)

Lemma currents_fixed_eq :
  arr_scal xmul (np_array [10; 7.5; 5]) (Fin 61.285) = currents_fixed.
Proof.
  unfold currents_fixed, np_array, arr_scal. cbn [map xmul].
  repeat (f_equal; try lra).
Qed.

Lemma zip_with_length (op : xfloat -> xfloat -> xfloat) (a b : ndarray) :
  List.length (zip_with op a b) = Nat.min (List.length a) (List.length b).
Proof.
  revert b. induction a as [| x a IH]; intros [| y b]; cbn; try reflexivity.
  rewrite IH. reflexivity.
Qed.

(** [modelo] returns one value per current. *)
Lemma modelo_length (params i r : ndarray) :
  modelo params i = Return r -> List.length r = List.length i.
Proof.
  unfold modelo.
  destruct params as [| Cm [| n [| ik [| ? ?]]]]; try discriminate.
  intros H. injection H as <-.
  unfold scal_arr, arr_scal. rewrite !length_map. reflexivity.
Qed.

(** Where the observed capacities are really used, in [residuals], numpy
    does reject arrays that cannot be broadcast together. *)
Lemma residuals_shape_mismatch (Cm n ik : xfloat) (i C_observado : ndarray) :
  List.length i <> List.length C_observado ->
  List.length i <> 1%nat -> List.length C_observado <> 1%nat ->
  residuals [Cm; n; ik] i C_observado = Raise ValueError.
Proof.
  intros Hne Hi HC. unfold residuals.
  destruct (modelo [Cm; n; ik] i) as [r | e |] eqn:Hm; try discriminate Hm.
  cbn [bind]. pose proof (modelo_length _ _ _ Hm) as Hl.
  unfold arr_arr. rewrite Hl.
  destruct (Nat.eqb_spec (List.length i) (List.length C_observado)) as [E | _];
    [contradiction |].
  destruct r as [| x [| x' r]]; destruct C_observado as [| y [| y' C']];
    cbn in *; try reflexivity; congruence.
Qed.

Section Estimator.

Variable least_squares : solver.

Lemma encontrar_parametros_unfold (C_observado i : ndarray) :
  encontrar_parametros least_squares C_observado i =
  (resultado <~ lift (solver_call least_squares) ;;
   print [Str "Parametros Otimizados:"] ;;;
   x0 <~ lift (getitem (OptimizeResult.x resultado) 0) ;;
   print [Str "Cm = "; Fixed 4 x0] ;;;
   x1 <~ lift (getitem (OptimizeResult.x resultado) 1) ;;
   print [Str "n = "; Fixed 4 x1] ;;;
   x2 <~ lift (getitem (OptimizeResult.x resultado) 2) ;;
   print [Str "ik = "; Fixed 4 x2] ;;;
   print [Str "Soma residual dos quadrados: "; Sci 4 (OptimizeResult.cost resultado)] ;;;
   io_ret resultado).
Proof.
  unfold encontrar_parametros, solver_call. cbv zeta.
  rewrite currents_fixed_eq. reflexivity.
Qed.

(** When the solver returns three parameters, so does the function, after
    printing them. *)
Lemma encontrar_parametros_returns
    (C_observado i : ndarray) (a b c cost : xfloat) :
  solver_call least_squares = Return (OptimizeResult.mk [a; b; c] cost) ->
  encontrar_parametros least_squares C_observado i
  = (report a b c cost, Return (OptimizeResult.mk [a; b; c] cost)).
Proof.
  intros H. rewrite encontrar_parametros_unfold, H. reflexivity.
Qed.

(** When the solver raises, the function raises the same exception and
    prints nothing. *)
Lemma encontrar_parametros_raises (C_observado i : ndarray) (e : exn) :
  solver_call least_squares = Raise e ->
  encontrar_parametros least_squares C_observado i = ([], Raise e).
Proof.
  intros H. rewrite encontrar_parametros_unfold, H. reflexivity.
Qed.

(** C3.  The result (and the output) of [encontrar_parametros] is the same
    for any two pairs of arguments: both arguments are overwritten by
    constants before the solver is called. *)
Theorem encontrar_parametros_ignores_arguments
    (C_observado i C_observado' i' : ndarray) :
  encontrar_parametros least_squares C_observado i
  = encontrar_parametros least_squares C_observado' i'.
Proof.
  rewrite (encontrar_parametros_unfold C_observado i).
  rewrite (encontrar_parametros_unfold C_observado' i').
  reflexivity.
Qed.

(** C9, as amended.  No length check is made: for arrays of any lengths,
    equal or not, the solver is called on the fixed three-point data, and
    when it returns three parameters the function prints and returns
    them. *)
Theorem encontrar_parametros_no_shape_check
    (C_observado i : ndarray) (a b c cost : xfloat) :
  List.length C_observado <> List.length i ->
  solver_call least_squares = Return (OptimizeResult.mk [a; b; c] cost) ->
  encontrar_parametros least_squares C_observado i
  = (report a b c cost, Return (OptimizeResult.mk [a; b; c] cost)).
Proof.
  intros _ H. apply encontrar_parametros_returns, H.
Qed.

End Estimator.

Lemma encontrar_parametros_no_shape_check_witness :
  encontrar_parametros solver_x0 (np_array [1; 2]) (np_array [1; 2; 3])
  = (report (Fin 100) (Fin 0.5) (Fin 300) (Fin 0),
     Return (OptimizeResult.mk [Fin 100; Fin 0.5; Fin 300] (Fin 0))).
Proof.
  apply (encontrar_parametros_no_shape_check solver_x0
           (np_array [1; 2]) (np_array [1; 2; 3]) (Fin 100) (Fin 0.5) (Fin 300) (Fin 0)).
  - cbn. discriminate.
  - reflexivity.
Defined.

(** C9 as stated fails: arrays of lengths two and three are not rejected;
    the call goes on to the solver and returns its result. *)
Lemma encontrar_parametros_accepts_mismatch :
  List.length (np_array [1; 2]) <> List.length (np_array [1; 2; 3]) /\
  forall e : exn,
    snd (encontrar_parametros solver_x0 (np_array [1; 2]) (np_array [1; 2; 3])) <> Raise e.
Proof.
  split; [cbn; discriminate |].
  intros e.
  rewrite (encontrar_parametros_returns solver_x0 _ _ (Fin 100) (Fin 0.5) (Fin 300) (Fin 0));
    [cbn; discriminate | reflexivity].
Qed.

(** ** The documented examples *)

(** A quotient is enclosed once its numerator is. *)
Lemma quotient_enclosure (c d m lo hi : R) :
  0 < d -> c * d = m -> lo * d < m -> m < hi * d -> lo < c < hi.
Proof.
  intros Hd E Hlo Hhi.
  split; apply (Rmult_lt_reg_r d); lra.
Qed.

(** The value of the capacity at [Cm = 61.285], [i = 5 * 61.285],
    [ik = 321.9], [n = 0.653]. *)
Lemma capacity_code_example :
  38.59230 < capacity_code 61.285 (5 * 61.285) 321.9 0.653 < 38.59231.
Proof.
  rewrite capacity_code_mult by lra.
  replace ((5 * 61.285 / 321.9 - 1) * 0.653) with (- (404207 / 12876000)) by lra.
  rewrite !erfc_neg.
  pose proof erf_scale_enclosure as [Hs1 Hs2].
  pose proof gauss_int_0653 as [Hb1 Hb2].
  pose proof gauss_int_small as [Ha1 Ha2].
  set (s := 2 / sqrt PI) in *.
  set (I2 := gauss_int (- (0.653)) 0) in *.
  set (I1 := gauss_int (- (404207 / 12876000)) 0) in *.
  assert (HA1 : 0.03541075 < s * I1) by nra.
  assert (HA2 : s * I1 < 0.03541078) by nra.
  assert (HB1 : 0.64424360 < s * I2) by nra.
  assert (HB2 : s * I2 < 0.64424370) by nra.
  set (A := s * I1) in *. set (B := s * I2) in *.
  apply (quotient_enclosure _ (1 + B) (61.285 * (1 + A))); [lra | field; lra | lra | lra].
Qed.

(** C4.  [calculo_capacidade] at [Cm = 61.285], [i = 5 * 61.285],
    [ik = 321.9], [n = 0.653] returns 38.5923 within 1e-3 (absolute),
    whatever the kinds of the four scalars. *)
Theorem calculo_capacidade_example (kC ki kk kn : kind) :
  exists c : R,
    calculo_capacidade (Num kC (Fin 61.285)) (Num ki (Fin (5 * 61.285)))
                       (Num kk (Fin 321.9)) (Num kn (Fin 0.653))
    = Return (np_float c) /\
    Rabs (c - 38.5923) < 1 / 1000.
Proof.
  exists (capacity_code 61.285 (5 * 61.285) 321.9 0.653). split.
  - apply calculo_capacidade_fin; [| lra | lra].
    pose proof (erfc_neg_pos 0.653). lra.
  - pose proof capacity_code_example as [H1 H2].
    apply Rabs_def1; lra.
Qed.





(** ** The fixed data against the model *)

(** Bounds of the Gaussian integral over [[0, x]]. *)
Lemma gauss_int_bounds_pos (k : nat) (x : R) :
  0 <= x ->
  terf (S (2 * k)) x <= gauss_int 0 x <= terf (2 * k) x.
Proof.
  intros Hx. split.
  - replace (terf (S (2 * k)) x) with (terf (S (2 * k)) x - terf (S (2 * k)) 0)
      by (rewrite terf_at_0; ring).
    apply (gauss_int_above (terf (S (2 * k))) (fun t => texp (S (2 * k)) (t * t))); [lra | |].
    + intros t _. apply terf_deriv.
    + intros t _. apply texp_lower. nra.
  - replace (terf (2 * k) x) with (terf (2 * k) x - terf (2 * k) 0)
      by (rewrite terf_at_0; ring).
    apply (gauss_int_below (terf (2 * k)) (fun t => texp (2 * k) (t * t))); [lra | |].
    + intros t _. apply terf_deriv.
    + intros t _. apply texp_upper. nra.
Qed.

Lemma gauss_int_0590 :
  0.52828705 < gauss_int 0 (3799807 / 6438000) < 0.52828707.
Proof.
  assert (H : 0 <= 3799807 / 6438000) by lra.
  apply (gauss_int_bounds_pos 3) in H. revert H.
  cbn [terf Nat.mul Nat.add]. inr_to_z. intros [Hlo Hhi].
  split; lra.
Qed.

Lemma gauss_int_0279 :
  0.27230746 < gauss_int 0 (2398469 / 8584000) < 0.27230747.
Proof.
  assert (H : 0 <= 2398469 / 8584000) by lra.
  apply (gauss_int_bounds_pos 3) in H. revert H.
  cbn [terf Nat.mul Nat.add]. inr_to_z. intros [Hlo Hhi].
  split; lra.
Qed.

(** The model's capacity at the first two fixed currents. *)
Lemma capacity_code_first :
  15.05404 < capacity_code 61.285 612.85 321.9 0.653 < 15.05405.
Proof.
  rewrite capacity_code_mult by lra.
  replace ((612.85 / 321.9 - 1) * 0.653) with (3799807 / 6438000) by lra.
  rewrite erfc_neg. unfold erfc, erf.
  pose proof erf_scale_enclosure as [Hs1 Hs2].
  pose proof gauss_int_0653 as [Hb1 Hb2].
  pose proof gauss_int_0590 as [Ha1 Ha2].
  set (s := 2 / sqrt PI) in *.
  set (I2 := gauss_int (- (0.653)) 0) in *.
  set (J := gauss_int 0 (3799807 / 6438000)) in *.
  assert (HA1 : 0.59610808 < s * J) by nra.
  assert (HA2 : s * J < 0.59610815) by nra.
  assert (HB1 : 0.64424360 < s * I2) by nra.
  assert (HB2 : s * I2 < 0.64424370) by nra.
  set (A := s * J) in *. set (B := s * I2) in *.
  apply (quotient_enclosure _ (1 + B) (61.285 * (1 - A))); [lra | field; lra | lra | lra].
Qed.

Lemma capacity_code_second :
  25.81989 < capacity_code 61.285 459.6375 321.9 0.653 < 25.81990.
Proof.
  rewrite capacity_code_mult by lra.
  replace ((459.6375 / 321.9 - 1) * 0.653) with (2398469 / 8584000) by lra.
  rewrite erfc_neg. unfold erfc, erf.
  pose proof erf_scale_enclosure as [Hs1 Hs2].
  pose proof gauss_int_0653 as [Hb1 Hb2].
  pose proof gauss_int_0279 as [Ha1 Ha2].
  set (s := 2 / sqrt PI) in *.
  set (I2 := gauss_int (- (0.653)) 0) in *.
  set (J := gauss_int 0 (2398469 / 8584000)) in *.
  assert (HA1 : 0.30726605 < s * J) by nra.
  assert (HA2 : s * J < 0.30726609) by nra.
  assert (HB1 : 0.64424360 < s * I2) by nra.
  assert (HB2 : s * I2 < 0.64424370) by nra.
  set (A := s * J) in *. set (B := s * I2) in *.
  apply (quotient_enclosure _ (1 + B) (61.285 * (1 - A))); [lra | field; lra | lra | lra].
Qed.

(** [modelo] computes, at each current, the value [calculo_capacidade]
    computes. *)
Lemma modelo_fin (Cm n ik : R) (l : list R) :
  erfc (- n) <> 0 -> ik <> 0 -> n <> 0 ->
  modelo (np_array [Cm; n; ik]) (np_array l)
  = Return (np_array (map (fun i => capacity_code Cm i ik n) l)).
Proof.
  intros He Hik Hn.
  assert (Hu : 1 / n <> 0).
  { unfold Rdiv. rewrite Rmult_1_l. apply Rinv_neq_0_compat, Hn. }
  unfold modelo, np_array, arr_scal, scal_arr. cbn [map xopp xerfc xdiv].
  rewrite (is_zero_false _ He), (is_zero_false _ Hn).
  f_equal. rewrite !map_map. apply map_ext. intros i.
  cbn [xdiv xsub xerfc xmul].
  rewrite (is_zero_false _ Hik). cbn [xsub xdiv].
  rewrite (is_zero_false _ Hu). reflexivity.
Qed.

(** At the parameters (61.285, 0.653, 321.9) the residuals on the fixed
    data are all below 1e-5 in absolute value: the observed capacities are
    the model's values at these parameters. *)
Lemma residuals_at_reference :
  exists r1 r2 r3 : R,
    residuals (np_array [61.285; 0.653; 321.9]) currents_fixed capacities_fixed
    = Return (np_array [r1; r2; r3]) /\
    Rabs r1 < 1 / 100000 /\ Rabs r2 < 1 / 100000 /\ Rabs r3 < 1 / 100000.
Proof.
  pose proof (erfc_neg_pos 0.653) as Hp.
  exists (capacity_code 61.285 612.85 321.9 0.653 - 15.054043042538622),
         (capacity_code 61.285 459.6375 321.9 0.653 - 25.81989538243598),
         (capacity_code 61.285 306.425 321.9 0.653 - 38.59230288240648).
  split.
  - unfold residuals, currents_fixed, capacities_fixed.
    rewrite modelo_fin by lra. reflexivity.
  - pose proof capacity_code_first as [H1 H1'].
    pose proof capacity_code_second as [H2 H2'].
    pose proof capacity_code_example as [H3 H3'].
    replace (5 * 61.285) with 306.425 in H3, H3' by lra.
    repeat split; apply Rabs_def1; lra.
Qed.

(** ** [main] *)

(** When the solver returns the reference parameters, [main] prints the
    solver's report, the capacity at [5 * 61.285] A and the runtime in
    minutes, and ends normally. *)
Lemma main_at_reference (least_squares : solver) (cost : xfloat) :
  solver_call least_squares
  = Return (OptimizeResult.mk (np_array [61.285; 0.653; 321.9]) cost) ->
  main least_squares
  = (report (Fin 61.285) (Fin 0.653) (Fin 321.9) cost
       ++ [ [Str "Capacidade bateria: ";
             Fixed 2 (Fin (capacity_code 61.285 (5 * 61.285) 321.9 0.653));
             Str " Ah"];
            [Fixed 2 (Fin (duration_spec 0.653 100 80 6 * 60)); Str " Minutos"] ],
     Return tt).
Proof.
  intros H. unfold main. cbv zeta.
  pose proof (erfc_neg_pos 0.653) as Hp.
  rewrite (encontrar_parametros_returns least_squares _ _ _ _ _ _ H).
  cbn [io_bind OptimizeResult.x np_array map].
  unfold py_mul, py_int, py_float. cbn [num_kind num_val join xmul].
  rewrite (calculo_capacidade_fin Np Py Np Np) by lra.
  rewrite (peukert_fin Np Py Py Py) by (lra || apply example_powers_in_range).
  reflexivity.
Qed.

(** * Further properties of the program *)

(** ** [modelo] against [calculo_capacidade] *)

(** The capacity of numpy scalars, as a function on values: what
    [calculo_capacidade] does when nothing can raise. *)
Lemma calculo_capacidade_np (Cm i ik n : xfloat) :
  calculo_capacidade (Num Np Cm) (Num Np i) (Num Np ik) (Num Np n)
  = Return (Num Np (xmul (xdiv Cm (xerfc (xopp n)))
                         (xerfc (xdiv (xsub (xdiv i ik) (Fin 1)) (xdiv (Fin 1) n))))).
Proof. reflexivity. Qed.

(** [modelo] is [calculo_capacidade] applied to each current: the model
    fitted and the function evaluated afterwards are the same formula, on
    every value, finite or not. *)
Theorem modelo_matches_calculo_capacidade (Cm n ik : xfloat) (i : ndarray) :
  exists out : ndarray,
    modelo [Cm; n; ik] i = Return out /\
    Forall2 (fun e v =>
               calculo_capacidade (Num Np Cm) (Num Np e) (Num Np ik) (Num Np n)
               = Return (Num Np v)) i out.
Proof.
  eexists. split; [reflexivity |].
  unfold scal_arr, arr_scal. rewrite !map_map.
  induction i as [| e i IH]; cbn [map]; constructor.
  - apply calculo_capacidade_np.
  - exact IH.
Qed.

(** [modelo] needs exactly three parameters: otherwise unpacking them
    raises [ValueError]; with three it always returns, one value per
    current (none for an empty array). *)
Theorem modelo_shape (params i : ndarray) :
  (List.length params = 3%nat /\
   exists r, modelo params i = Return r /\ List.length r = List.length i) \/
  (List.length params <> 3%nat /\ modelo params i = Raise ValueError).
Proof.
  destruct params as [| Cm [| n [| ik [| x params]]]];
    try (right; split; [cbn; lia | reflexivity]).
  left. split; [reflexivity |].
  eexists. split; [reflexivity |].
  unfold scal_arr, arr_scal. rewrite !length_map. reflexivity.
Qed.

(** ** [residuals] *)

Lemma arr_arr_raises (op : xfloat -> xfloat -> xfloat) (a b : ndarray) :
  arr_arr op a b = Raise ValueError <->
  List.length a <> List.length b /\ List.length a <> 1%nat /\ List.length b <> 1%nat.
Proof.
  unfold arr_arr.
  destruct (Nat.eqb_spec (List.length a) (List.length b)) as [E | E].
  - split; [discriminate | intros [H _]; contradiction].
  - destruct a as [| x [| x' a]]; destruct b as [| y [| y' b]]; cbn in *;
      split; try discriminate; try (intros [_ [H1 H2]]; congruence);
      try (intros _; repeat split; lia); try reflexivity; try lia.
Qed.

(** With three parameters, [residuals] raises exactly when the currents and
    the observed capacities cannot be broadcast together: their lengths
    differ and neither is one.  (An observed array of length one is
    subtracted from every estimate.) *)
Theorem residuals_raises_iff (Cm n ik : xfloat) (i C_observado : ndarray) :
  residuals [Cm; n; ik] i C_observado = Raise ValueError <->
  List.length i <> List.length C_observado /\
  List.length i <> 1%nat /\ List.length C_observado <> 1%nat.
Proof.
  unfold residuals.
  destruct (modelo [Cm; n; ik] i) as [r | e |] eqn:Hm; try discriminate Hm.
  cbn [bind]. rewrite arr_arr_raises, (modelo_length _ _ _ Hm). reflexivity.
Qed.

Lemma zip_with_sub_self (l : list R) :
  zip_with xsub (np_array l) (np_array l) = np_array (map (fun _ => 0) l).
Proof.
  induction l as [| x l IH]; [reflexivity |].
  cbn [np_array map zip_with xsub]. unfold np_array in IH. rewrite IH.
  f_equal. f_equal. ring.
Qed.

(** Round trip: on capacities generated by [modelo] at some parameters
    from finite currents, the residuals at the same parameters are all
    zero. *)
Theorem residuals_of_generated_data (Cm n ik : R) (currents : list R) :
  0 < ik -> 0 < n ->
  exists observed : ndarray,
    modelo (np_array [Cm; n; ik]) (np_array currents) = Return observed /\
    residuals (np_array [Cm; n; ik]) (np_array currents) observed
    = Return (np_array (map (fun _ => 0) currents)).
Proof.
  intros Hik Hn.
  pose proof (erfc_neg_pos n) as Hp.
  exists (np_array (map (fun i => capacity_code Cm i ik n) currents)).
  assert (Hm : modelo (np_array [Cm; n; ik]) (np_array currents)
               = Return (np_array (map (fun i => capacity_code Cm i ik n) currents)))
    by (apply modelo_fin; lra).
  split; [exact Hm |].
  unfold residuals. rewrite Hm. cbn [bind]. unfold arr_arr.
  rewrite Nat.eqb_refl, zip_with_sub_self, map_map. reflexivity.
Qed.

Lemma residuals_of_generated_data_witness :
  exists observed : ndarray,
    modelo (np_array [61.285; 0.653; 321.9]) (np_array [612.85; 459.6375; 306.425])
    = Return observed /\
    residuals (np_array [61.285; 0.653; 321.9]) (np_array [612.85; 459.6375; 306.425]) observed
    = Return (np_array (map (fun _ => 0) [612.85; 459.6375; 306.425])).
Proof.
  apply (residuals_of_generated_data 61.285 0.653 321.9 [612.85; 459.6375; 306.425]); lra.
Defined.

(** ** More on [calculo_capacidade] *)

Lemma billionth_pos : 0 < / 10 ^ 9.
Proof. apply Rinv_0_lt_compat, pow_lt. lra. Qed.

(** At zero current the capacity is [Cm], for [Cm] of ordinary magnitude:
    the argument of [erfc] is [-n], the same as in the normalising factor.
    The two cancel over the reals; the statement leaves a relative 1e-9 for
    the rounding of the operations and of [erfc]. *)
Theorem calculo_capacidade_at_zero_current (kC ki kk kn : kind) (Cm ik n : R) :
  ik <> 0 -> 0 < n -> ordinary (Rabs Cm) ->
  exists c : R,
    calculo_capacidade (Num kC (Fin Cm)) (Num ki (Fin 0)) (Num kk (Fin ik)) (Num kn (Fin n))
    = Return (np_float c) /\
    Rabs (c - Cm) <= Rabs Cm / 10 ^ 9.
Proof.
  intros Hik Hn HCm.
  pose proof (erfc_neg_pos n) as Hp.
  exists (capacity_code Cm 0 ik n).
  split; [apply calculo_capacidade_fin; lra |].
  rewrite capacity_code_mult by lra.
  replace ((0 / ik - 1) * n) with (- n) by (field; exact Hik).
  replace (Cm / erfc (- n) * erfc (- n) - Cm) with 0 by (field; lra).
  rewrite Rabs_R0.
  pose proof (ordinary_pos _ HCm). pose proof billionth_pos.
  apply Rmult_le_pos; lra.
Qed.

Lemma calculo_capacidade_at_zero_current_witness :
  exists c : R,
    calculo_capacidade (py_float 61.285) (py_float 0) (py_float 321.9) (py_float 0.653)
    = Return (np_float c) /\
    Rabs (c - 61.285) <= Rabs 61.285 / 10 ^ 9.
Proof.
  apply (calculo_capacidade_at_zero_current Py Py Py Py 61.285 321.9 0.653); [lra | lra |].
  rewrite Rabs_right by lra. unfold ordinary. lra.
Defined.

(** For a current between 0 and [ik] and [Cm] of ordinary magnitude, the
    capacity lies between [Cm / erfc(-n)] (its value at [ik]) and [Cm] (its
    value at 0): exactly so over the reals, and stated with a relative 1e-9
    at both ends for the rounding of the operations and of [erfc]. *)
Theorem calculo_capacidade_range (kC ki kk kn : kind) (Cm i ik n : R) :
  ordinary Cm -> 0 < ik -> 0 < n -> 0 <= i <= ik ->
  exists c : R,
    calculo_capacidade (Num kC (Fin Cm)) (Num ki (Fin i)) (Num kk (Fin ik)) (Num kn (Fin n))
    = Return (np_float c) /\
    Cm / erfc (- n) * (1 - / 10 ^ 9) <= c <= Cm * (1 + / 10 ^ 9).
Proof.
  intros HCm' Hik Hn [Hi0 Hi1].
  pose proof billionth_pos as Hb.
  pose proof (ordinary_pos Cm HCm') as HCm.
  pose proof (erfc_neg_pos n) as Hp.
  exists (capacity_code Cm i ik n).
  split; [apply calculo_capacidade_fin; lra |].
  assert (Hq : 0 < Cm / erfc (- n)) by (apply Rdiv_lt_0_compat; lra).
  pose proof (capacity_code_nonincreasing Cm ik n 0 i HCm Hik Hn Hi0) as Hup.
  pose proof (capacity_code_nonincreasing Cm ik n i ik HCm Hik Hn Hi1) as Hlo.
  rewrite (capacity_code_mult Cm 0) in Hup by lra.
  rewrite (capacity_code_mult Cm ik) in Hlo by lra.
  replace ((0 / ik - 1) * n) with (- n) in Hup by (field; lra).
  replace ((ik / ik - 1) * n) with 0 in Hlo by (field; lra).
  rewrite erfc_0 in Hlo.
  replace (Cm / erfc (- n) * erfc (- n)) with Cm in Hup by (field; lra).
  split; nra.
Qed.

Lemma calculo_capacidade_range_witness :
  exists c : R,
    calculo_capacidade (py_float 61.285) (py_float 306.425) (py_float 321.9) (py_float 0.653)
    = Return (np_float c) /\
    61.285 / erfc (- (0.653)) * (1 - / 10 ^ 9) <= c <= 61.285 * (1 + / 10 ^ 9).
Proof.
  apply (calculo_capacidade_range Py Py Py Py 61.285 306.425 321.9 0.653);
    [unfold ordinary; lra | lra | lra | lra].
Defined.

Lemma calculo_capacidade_n_zero_py (Cm i ik : num) :
  calculo_capacidade Cm i ik (py_float 0) = Raise ZeroDivisionError.
Proof.
  destruct Cm as [kC Cm], i as [ki i], ik as [kk ik].
  unfold calculo_capacidade, sp_erfc, py_neg, py_float, py_int.
  unfold py_truediv at 1. cbn [num_kind num_val].
  replace (join kC Np) with Np by (destruct kC; reflexivity). cbn [bind].
  assert (Hu : py_truediv (Num Py (Fin 1)) (Num Py (Fin 0)) = Raise ZeroDivisionError).
  { unfold py_truediv. cbn [num_kind num_val join is_zero_x].
    rewrite (is_zero_true 0 eq_refl). reflexivity. }
  unfold py_truediv at 1. cbn [num_kind num_val].
  destruct (join ki kk); [destruct (is_zero_x ik); [reflexivity |] |];
    cbn [bind]; rewrite Hu; reflexivity.
Qed.

Lemma calculo_capacidade_n_zero_np (kC ki kk : kind) (Cm i ik : R) :
  ik <> 0 ->
  calculo_capacidade (Num kC (Fin Cm)) (Num ki (Fin i)) (Num kk (Fin ik)) (np_float 0)
  = Return (np_float Cm).
Proof.
  intros Hik.
  assert (He : erfc (- 0) = 1) by (rewrite Ropp_0; apply erfc_0).
  unfold calculo_capacidade, sp_erfc, py_neg, py_int, np_float.
  cbn [num_val num_kind xopp xerfc].
  rewrite (py_truediv_fin kC Np Cm (erfc (- 0))) by lra. cbn [bind].
  rewrite (py_truediv_fin ki kk i ik Hik). cbn [bind].
  unfold py_truediv at 1. cbn [num_val num_kind join bind xdiv].
  rewrite (is_zero_true 0 eq_refl), (is_zero_false 1) by lra.
  rewrite (is_neg_false 1) by lra. cbn [inf_of].
  unfold py_sub, py_truediv. cbn [num_val num_kind xsub xdiv].
  replace (join (join (join ki kk) Py) Np) with Np by (destruct ki, kk; reflexivity).
  cbn [bind]. unfold py_mul. cbn [num_val num_kind xerfc xmul].
  replace (join (join kC Np) Np) with Np by (destruct kC; reflexivity).
  rewrite erfc_0, He. do 3 f_equal. field.
Qed.

(** With [n = 0]: a Python zero makes [1/n] raise [ZeroDivisionError],
    whatever the other arguments; a numpy zero makes [1/n] infinite, the
    argument of [erfc] zero, and the call returns [Cm] for every finite
    current. *)
Theorem calculo_capacidade_n_zero :
  (forall Cm i ik : num,
      calculo_capacidade Cm i ik (py_float 0) = Raise ZeroDivisionError) /\
  (forall (kC ki kk : kind) (Cm i ik : R),
      ik <> 0 ->
      calculo_capacidade (Num kC (Fin Cm)) (Num ki (Fin i)) (Num kk (Fin ik)) (np_float 0)
      = Return (np_float Cm)).
Proof.
  split; [exact calculo_capacidade_n_zero_py | exact calculo_capacidade_n_zero_np].
Qed.

Lemma calculo_capacidade_n_zero_witness :
  calculo_capacidade (py_float 61.285) (py_float 306.425) (py_float 321.9) (np_float 0)
  = Return (np_float 61.285).
Proof.
  apply (proj2 calculo_capacidade_n_zero Py Py Py 61.285 306.425 321.9). lra.
Defined.

(** ** More on [peukert] *)

(** With exponent 1 the runtime is [C / i], whatever the C-rate, for
    arguments of ordinary magnitude: exactly so over the reals (the code
    computes [(R * (C / R)) / i]), stated here within a relative 1e-9 for the
    rounding of the operations. *)
Theorem peukert_exponent_one (kn kR ki kC : kind) (C_rating i C : R) :
  ordinary C_rating -> ordinary i -> ordinary C ->
  exists t : R,
    peukert (Num kn (Fin 1)) (Num kR (Fin C_rating)) (Num ki (Fin i)) (Num kC (Fin C))
    = Return (Num (join4 kn kR ki kC) (Fin t)) /\
    Rabs (t - C / i) <= C / i / 10 ^ 9.
Proof.
  intros HR' Hi' HC'.
  pose proof (ordinary_pos _ HR') as HR. pose proof (ordinary_pos _ Hi') as Hi.
  pose proof (ordinary_pos _ HC') as HC.
  assert (HR1 : 0 < 1 / C_rating) by (apply Rdiv_lt_0_compat; lra).
  assert (Hb0 : 0 < C / (1 / C_rating)) by (apply Rdiv_lt_0_compat; lra).
  exists (duration_spec 1 C_rating i C). split.
  - apply peukert_fin; try lra; rewrite Rpower_1 by assumption.
    + replace (C / (1 / C_rating)) with (C * C_rating) by (field; lra).
      apply ordinary_product_in_range; assumption.
    + apply ordinary_in_range, Hi'.
  - unfold duration_spec. cbv zeta. rewrite !Rpower_1 by assumption.
    replace (1 / C_rating * (C / (1 / C_rating)) / i - C / i) with 0 by (field; lra).
    rewrite Rabs_R0.
    assert (0 < C / i) by (apply Rdiv_lt_0_compat; lra).
    pose proof billionth_pos. apply Rmult_le_pos; lra.
Qed.

Lemma peukert_exponent_one_witness :
  exists t : R,
    peukert (py_float 1) (py_float 100) (py_float 80) (py_float 6)
    = Return (py_float t) /\
    Rabs (t - 6 / 80) <= 6 / 80 / 10 ^ 9.
Proof.
  apply (peukert_exponent_one Py Py Py Py 100 80 6); unfold ordinary; lra.
Defined.

Lemma not_integer_is_int (y : R) : (forall z : Z, y <> IZR z) -> is_int y = false.
Proof.
  intros H. unfold is_int.
  destruct (Req_dec_T (IZR (Int_part y)) y) as [E | _]; [| reflexivity].
  exfalso. apply (H (Int_part y)). symmetry. exact E.
Qed.

Lemma peukert_negative_current_py (n C_rating i C : R) :
  (forall z : Z, n <> IZR z) -> 0 < C_rating -> i < 0 -> 0 < C ->
  Rpower (C / (1 / C_rating)) n <= float_max ->
  2 * float_tiny <= Rpower (- i) n <= float_max ->
  peukert (py_float n) (py_float C_rating) (py_float i) (py_float C) = ComplexValue.
Proof.
  intros Hint HR Hi HC Hp [Hd0 Hd].
  pose proof float_tiny_pos as Ht.
  assert (Hn : n <> 0) by (apply (Hint 0%Z)).
  assert (HR' : 0 < 1 / C_rating) by (apply Rdiv_lt_0_compat; lra).
  assert (Hb : 0 < C / (1 / C_rating)) by (apply Rdiv_lt_0_compat; lra).
  unfold peukert, py_int, py_float.
  rewrite (py_truediv_fin Py Py 1 C_rating) by lra. cbn [bind join scaled_quotient].
  rewrite (py_truediv_fin Py Py C (1 / C_rating)) by lra. cbn [bind join scaled_quotient].
  destruct (py_pow_pos_le Py Py _ n Hb Hp) as [v [_ Ev]]. rewrite Ev. cbn [bind join scaled_quotient].
  unfold py_pow. cbn [num_kind num_val join].
  rewrite (is_zero_false n Hn), (is_zero_false i) by lra.
  rewrite (is_neg_true i Hi), (not_integer_is_int n Hint). cbn [andb negb].
  destruct (Rlt_dec float_max (Rpower (- i) n)); [lra |].
  destruct (Rlt_dec (Rpower (- i) n) float_tiny); [lra | reflexivity].
Qed.

Lemma peukert_negative_current_np (kn kR ki kC : kind) (n C_rating i C : R) :
  join ki kn = Np ->
  (forall z : Z, n <> IZR z) -> 0 < C_rating -> i < 0 -> 0 < C ->
  Rpower (C / (1 / C_rating)) n <= float_max ->
  peukert (Num kn (Fin n)) (Num kR (Fin C_rating)) (Num ki (Fin i)) (Num kC (Fin C))
  = Return (Num Np NaN).
Proof.
  intros Hk Hint HR Hi HC Hp.
  assert (Hn : n <> 0) by (apply (Hint 0%Z)).
  assert (HR' : 0 < 1 / C_rating) by (apply Rdiv_lt_0_compat; lra).
  assert (Hb : 0 < C / (1 / C_rating)) by (apply Rdiv_lt_0_compat; lra).
  unfold peukert, py_int.
  rewrite (py_truediv_fin Py kR 1 C_rating) by lra. cbn [bind scaled_quotient].
  rewrite (py_truediv_fin kC _ C (1 / C_rating)) by lra. cbn [bind scaled_quotient].
  destruct (py_pow_pos_le (join kC (join Py kR)) kn _ n Hb Hp) as [v [_ Ev]].
  rewrite Ev. cbn [bind scaled_quotient].
  unfold py_pow at 1. cbn [num_kind num_val]. rewrite Hk. cbn [bind xpow scaled_quotient].
  rewrite (is_zero_false n Hn), (is_zero_false i) by lra.
  rewrite (is_neg_true i Hi), (not_integer_is_int n Hint).
  unfold py_truediv, py_mul. cbn [num_kind num_val xmul xdiv].
  destruct (join (join (join Py kR) (join (join kC (join Py kR)) kn)) Np) eqn:Ej;
    [destruct (join (join Py kR) (join (join kC (join Py kR)) kn)); discriminate Ej |].
  reflexivity.
Qed.

(** A negative current with an exponent that is not a whole number, when
    [(C/R) ** n] does not overflow.  Between Python numbers [i ** n] is a
    [complex] and, when its modulus [|i| ** n] neither overflows nor
    underflows, the call returns a [complex] and raises nothing.  When the
    current or the exponent is a numpy scalar the result is [nan]. *)
Theorem peukert_negative_current :
  (forall n C_rating i C : R,
      (forall z : Z, n <> IZR z) -> 0 < C_rating -> i < 0 -> 0 < C ->
      Rpower (C / (1 / C_rating)) n <= float_max ->
      2 * float_tiny <= Rpower (- i) n <= float_max ->
      peukert (py_float n) (py_float C_rating) (py_float i) (py_float C) = ComplexValue) /\
  (forall (kn kR ki kC : kind) (n C_rating i C : R),
      join ki kn = Np ->
      (forall z : Z, n <> IZR z) -> 0 < C_rating -> i < 0 -> 0 < C ->
      Rpower (C / (1 / C_rating)) n <= float_max ->
      peukert (Num kn (Fin n)) (Num kR (Fin C_rating)) (Num ki (Fin i)) (Num kC (Fin C))
      = Return (Num Np NaN)).
Proof.
  split; [exact peukert_negative_current_py | exact peukert_negative_current_np].
Qed.

Lemma not_integer_0653 (z : Z) : 0.653 <> IZR z.
Proof.
  intros E.
  destruct (Z_le_gt_dec z 0) as [H | H].
  - apply IZR_le in H. lra.
  - assert (H' : (1 <= z)%Z) by lia. apply IZR_le in H'. lra.
Qed.

Lemma peukert_negative_current_witness :
  peukert (py_float 0.653) (py_float 100) (py_float (- 80)) (py_float 6) = ComplexValue /\
  peukert (np_float 0.653) (py_float 100) (py_float (- 80)) (py_float 6)
  = Return (Num Np NaN).
Proof.
  pose proof example_powers_in_range as [[_ Hp] [_ Hd]].
  split.
  - apply (proj1 peukert_negative_current 0.653 100 (- 80) 6);
      [exact not_integer_0653 | lra | lra | lra | exact Hp |].
    replace (- - 80) with 80 by lra.
    pose proof (Rpower_between 80 0.653 ltac:(lra) ltac:(lra)).
    pose proof float_bounds. lra.
  - apply (proj2 peukert_negative_current Np Py Py Py 0.653 100 (- 80) 6);
      [reflexivity | exact not_integer_0653 | lra | lra | lra | exact Hp].
Defined.

Lemma peukert_rate_zero_py (n i C : num) :
  peukert n (py_float 0) i C = Raise ZeroDivisionError.
Proof.
  unfold peukert, py_truediv at 1, py_int, py_float.
  cbn [num_kind num_val join is_zero_x].
  rewrite (is_zero_true 0 eq_refl). reflexivity.
Qed.

Lemma peukert_rate_zero_np (kn ki kC : kind) (n i C : R) :
  0 < n -> 0 < i -> Rpower i n <= float_max ->
  peukert (Num kn (Fin n)) (np_float 0) (Num ki (Fin i)) (Num kC (Fin C))
  = Return (Num Np NaN).
Proof.
  intros Hn Hi Hd.
  unfold peukert, py_int, np_float.
  unfold py_truediv at 1. cbn [num_kind num_val join bind xdiv].
  rewrite (is_zero_true 0 eq_refl), (is_zero_false 1) by lra.
  rewrite (is_neg_false 1) by lra. cbn [inf_of].
  unfold py_truediv at 1. cbn [num_kind num_val xdiv].
  replace (join kC Np) with Np by (destruct kC; reflexivity). cbn [bind scaled_quotient].
  unfold py_pow at 1. cbn [num_kind num_val join bind xpow scaled_quotient].
  rewrite (is_zero_false n) by lra. rewrite (is_zero_true 0 eq_refl).
  rewrite (is_neg_false n) by lra.
  destruct (py_pow_pos_le ki kn i n Hi Hd) as [v [_ Ev]]. rewrite Ev. cbn [bind scaled_quotient].
  unfold py_mul, py_truediv. cbn [num_kind num_val join xmul xdiv].
  rewrite (is_zero_true 0 eq_refl). reflexivity.
Qed.

(** With a C-rate of zero: a Python zero makes [1/R] raise
    [ZeroDivisionError] before anything else is computed; a numpy zero makes
    it infinite, and for [n > 0], [i > 0] and [i ** n] not overflowing the
    result is [nan] ([inf * 0]). *)
Theorem peukert_rate_zero :
  (forall n i C : num, peukert n (py_float 0) i C = Raise ZeroDivisionError) /\
  (forall (kn ki kC : kind) (n i C : R),
      0 < n -> 0 < i -> Rpower i n <= float_max ->
      peukert (Num kn (Fin n)) (np_float 0) (Num ki (Fin i)) (Num kC (Fin C))
      = Return (Num Np NaN)).
Proof.
  split; [exact peukert_rate_zero_py | exact peukert_rate_zero_np].
Qed.

Lemma peukert_rate_zero_witness :
  peukert (py_float 0.653) (np_float 0) (py_float 80) (py_float 6) = Return (Num Np NaN).
Proof.
  apply (proj2 peukert_rate_zero Py Py Py 0.653 80 6);
    [lra | lra | apply example_powers_in_range].
Defined.

(** ** More on [main] *)

(** With the fitted parameters numpy scalars, neither call of [main] can
    raise: every division and power has a numpy operand or a non-zero
    literal divisor. *)
Lemma calculo_capacidade_fitted (Cm ik n : xfloat) (i : num) :
  exists c : xfloat,
    calculo_capacidade (Num Np Cm) i (Num Np ik) (Num Np n) = Return (Num Np c).
Proof.
  destruct i as [ki i].
  unfold calculo_capacidade, py_truediv, sp_erfc, py_neg, py_sub, py_mul, py_int.
  cbn [num_kind num_val join bind].
  replace (join ki Np) with Np by (destruct ki; reflexivity).
  cbn [bind join]. eexists. reflexivity.
Qed.

Lemma peukert_fitted (n : xfloat) :
  exists t : xfloat,
    peukert (Num Np n) (py_int 100) (py_int 80) (py_int 6) = Return (Num Np t).
Proof.
  unfold peukert, py_int.
  rewrite (py_truediv_fin Py Py 1 100) by lra. cbn [bind join].
  rewrite (py_truediv_fin Py Py 6 (1 / 100)) by lra. cbn [bind join].
  unfold py_pow, py_truediv, py_mul. cbn [num_kind num_val join bind scaled_quotient].
  eexists. reflexivity.
Qed.

(** Whatever three parameters and cost the solver returns (zero, negative,
    [inf] or [nan] included), [main] raises nothing: it prints the five
    lines of the report, then the capacity and the runtime, and ends. *)
Theorem main_completes (least_squares : solver) (a b c cost : xfloat) :
  solver_call least_squares = Return (OptimizeResult.mk [a; b; c] cost) ->
  exists capacidade minutos : xfloat,
    main least_squares
    = (report a b c cost
         ++ [ [Str "Capacidade bateria: "; Fixed 2 capacidade; Str " Ah"];
              [Fixed 2 minutos; Str " Minutos"] ],
       Return tt).
Proof.
  intros H. unfold main. cbv zeta.
  rewrite (encontrar_parametros_returns least_squares _ _ _ _ _ _ H).
  cbn [io_bind OptimizeResult.x].
  destruct (calculo_capacidade_fitted a c b (py_mul (py_int 5) (py_float 61.285)))
    as [cap Hcap].
  destruct (peukert_fitted b) as [t Ht].
  rewrite Hcap, Ht. cbn [lift io_bind print app num_val].
  eexists _, _. reflexivity.
Qed.

Lemma main_completes_witness :
  exists capacidade minutos : xfloat,
    main solver_x0
    = (report (Fin 100) (Fin 0.5) (Fin 300) (Fin 0)
         ++ [ [Str "Capacidade bateria: "; Fixed 2 capacidade; Str " Ah"];
              [Fixed 2 minutos; Str " Minutos"] ],
       Return tt).
Proof.
  apply (main_completes solver_x0 (Fin 100) (Fin 0.5) (Fin 300) (Fin 0)). reflexivity.
Defined.

(** A solver that raises. *)
Lemma main_solver_raises_aux (least_squares : solver) (e : exn) :
  solver_call least_squares = Raise e ->
  encontrar_parametros least_squares
    (np_array [612.85; 459.6375; 306.425]) (np_array [612.85; 459.6375; 306.425])
  = ([], Raise e).
Proof. apply encontrar_parametros_raises. Qed.

(** When the solver raises, [main] prints nothing and ends with the same
    exception: no capacity or runtime is computed. *)
Theorem main_solver_raises (least_squares : solver) (e : exn) :
  solver_call least_squares = Raise e ->
  main least_squares = ([], Raise e).
Proof.
  intros H. unfold main. cbv zeta.
  rewrite (main_solver_raises_aux least_squares e H). reflexivity.
Qed.

Lemma main_solver_raises_witness :
  main (solver_raising ValueError) = ([], Raise ValueError).
Proof.
  apply (main_solver_raises (solver_raising ValueError) ValueError). reflexivity.
Defined.

(** ** [plotar] *)

Lemma duration_spec_pos (n C_rating i C : R) :
  0 < C_rating -> 0 < duration_spec n C_rating i C.
Proof.
  intros HR. unfold duration_spec. cbv zeta.
  assert (HR' : 0 < 1 / C_rating) by (apply Rdiv_lt_0_compat; lra).
  apply Rdiv_lt_0_compat; [apply Rmult_lt_0_compat; [exact HR' |] |]; apply exp_pos.
Qed.

Lemma duration_spec_decreasing (n C_rating C i1 i2 : R) :
  0 < n -> 0 < C_rating -> 0 < i1 -> i1 < i2 ->
  duration_spec n C_rating i2 C < duration_spec n C_rating i1 C.
Proof.
  intros Hn HR Hi1 Hi.
  unfold duration_spec. cbv zeta.
  assert (HR' : 0 < 1 / C_rating) by (apply Rdiv_lt_0_compat; lra).
  pose proof (exp_pos (n * ln (C / (1 / C_rating)))) as Hp.
  fold (Rpower (C / (1 / C_rating)) n) in Hp.
  pose proof (exp_pos (n * ln i1)) as H1. fold (Rpower i1 n) in H1.
  pose proof (Rlt_Rpower_l i1 i2 n Hn (conj Hi1 Hi)) as H12.
  unfold Rdiv at 1 3. apply Rmult_lt_compat_l; [apply Rmult_lt_0_compat; lra |].
  apply Rinv_lt_contravar; [apply Rmult_lt_0_compat; lra | exact H12].
Qed.

(** One turn of the loop at a current between 0.1 A and 100 A: both
    powers are then far inside the range of binary64. *)
Lemma plotar_step_pos (v : plot_vars) (j : R) :
  / 10 <= j <= 100 ->
  plotar_step v (Fin j)
  = Return
      (PlotVars (pv_vertical v ++ [valor_at j])
         (if Nat.eqb (List.length (pv_vertical v ++ [valor_at j])) 1
          then Some (point_at j) else pv_minimo v)
         (if Nat.eqb (List.length (pv_vertical v ++ [valor_at j])) 50
          then Some (point_at j) else pv_meio v)
         (if Nat.eqb (List.length (pv_vertical v ++ [valor_at j])) 100
          then Some (point_at j) else pv_maximo v)).
Proof.
  intros Hj. unfold plotar_step, py_float, py_int.
  assert (Hb : in_range (Rpower (6 / (1 / 100)) 0.6530)).
  { apply in_range_of_bounds.
    assert (H : 1 <= 6 / (1 / 100)) by lra.
    pose proof (Rpower_between (6 / (1 / 100)) 0.6530 H ltac:(lra)) as [H1 H2].
    replace (6 / (1 / 100)) with 600 in H2 at 2 by lra. lra. }
  assert (Hd : in_range (Rpower j 0.6530)).
  { apply in_range_of_bounds.
    pose proof (Rpower_ordinary j 0.6530 Hj ltac:(lra)). lra. }
  rewrite (peukert_fin Py Py Np Py 0.6530 100 j 6 ltac:(lra) ltac:(lra) ltac:(lra) Hb Hd).
  reflexivity.
Qed.

Lemma plotar_loop_app (h : ndarray) (j : xfloat) (v : plot_vars) :
  plotar_loop (h ++ [j]) v = (v' <- plotar_loop h v ;; plotar_step v' j).
Proof.
  revert v. induction h as [| x h IH]; intros v; cbn [app plotar_loop bind].
  - destruct (plotar_step v j); reflexivity.
  - destruct (plotar_step v x) as [v' | e |]; cbn [bind]; [apply IH | reflexivity | reflexivity].
Qed.

(** The element at index [c] after one more element is appended. *)
Lemma nth_error_snoc {A : Type} (l : list A) (x : A) (c : nat) :
  nth_error (l ++ [x]) c
  = if Nat.eqb (List.length l + 1) (S c) then Some x else nth_error l c.
Proof.
  destruct (Nat.eqb_spec (List.length l + 1) (S c)) as [E | E].
  - rewrite nth_error_app2 by lia.
    replace (c - List.length l)%nat with 0%nat by lia. reflexivity.
  - destruct (Nat.lt_ge_cases c (List.length l)) as [H | H].
    + apply nth_error_app1, H.
    + assert (H1 : nth_error l c = None) by (apply nth_error_None; lia).
      rewrite H1. apply nth_error_None. rewrite length_app. cbn. lia.
Qed.

(** The variables after the loop has run over currents between 0.1 A and
    100 A: one runtime per current, and the marks at the 1st, 50th and 100th
    current when there are that many. *)
Lemma plotar_loop_pos (l : list R) :
  Forall (fun j => / 10 <= j <= 100) l ->
  plotar_loop (np_array l) plot_init
  = Return
      (PlotVars (map valor_at l)
         (option_map point_at (nth_error l 0))
         (option_map point_at (nth_error l 49))
         (option_map point_at (nth_error l 99))).
Proof.
  induction l as [| j l IH] using rev_ind; intros Hpos; [reflexivity |].
  apply Forall_app in Hpos. destruct Hpos as [Hl Hj].
  apply Forall_inv in Hj.
  unfold np_array. rewrite map_app. cbn [map].
  rewrite plotar_loop_app. fold (np_array l). rewrite (IH Hl). cbn [bind].
  rewrite (plotar_step_pos _ j Hj). cbn [pv_vertical pv_minimo pv_meio pv_maximo].
  rewrite length_app, length_map. cbn [List.length].
  rewrite !nth_error_snoc, map_app. cbn [map].
  do 2 f_equal;
    match goal with
    | |- context [Nat.eqb ?a ?b] => destruct (Nat.eqb a b); reflexivity
    end.
Qed.

Lemma linspace_samples : linspace 0.1 100 100 = np_array (map sample (seq 0 100)).
Proof. unfold linspace, np_array. rewrite map_map. reflexivity. Qed.

Lemma INR_99 : INR (100 - 1) = 99.
Proof.
  rewrite INR_IZR_INZ. reflexivity.
Qed.

Lemma sample_pos (k : nat) : 0 < sample k.
Proof.
  unfold sample. rewrite INR_99. pose proof (pos_INR k). nra.
Qed.

Lemma sample_increasing (k : nat) : sample k < sample (S k).
Proof.
  unfold sample. rewrite INR_99, S_INR. lra.
Qed.

Lemma sample_bounds (k : nat) : (k < 100)%nat -> / 10 <= sample k <= 100.
Proof.
  intros Hk. unfold sample. rewrite INR_99.
  pose proof (pos_INR k) as H0.
  assert (H1 : INR k <= 99).
  { replace 99 with (INR 99) by (rewrite INR_IZR_INZ; reflexivity).
    apply le_INR. lia. }
  split; nra.
Qed.

Lemma samples_bounds :
  Forall (fun j => / 10 <= j <= 100) (map sample (seq 0 100)).
Proof.
  apply Forall_map, Forall_forall. intros k Hk.
  apply in_seq in Hk. apply sample_bounds. lia.
Qed.

Lemma plotar_vars_value :
  plotar_vars
  = Return
      (PlotVars (map valor_at (map sample (seq 0 100)))
         (Some (point_at (sample 0))) (Some (point_at (sample 49)))
         (Some (point_at (sample 99)))).
Proof.
  unfold plotar_vars. rewrite linspace_samples.
  rewrite (plotar_loop_pos _ samples_bounds).
  do 2 f_equal.
Qed.

(** [plotar] runs to its end: each of the 100 calls of [peukert] in the
    loop returns, the three marks are bound when the drawing starts, and the
    calls of the plotting library are, in order: the curve of 100 points,
    the two labels, the grid, the three marked points with their texts, the
    file saved and the window shown. *)
Theorem plotar_completes :
  exists vertical : list num,
    List.length vertical = 100%nat /\
    plotar
    = ([ PltPlot (linspace 0.1 100 100) vertical;
         PltXlabel "corrente [A]"; PltYlabel "duração [min]"; PltGrid "True" ]
         ++ draw_mark (point_at (sample 0)) "left"
         ++ draw_mark (point_at (sample 49)) "right"
         ++ draw_mark (point_at (sample 99)) "right"
         ++ [PltSavefig "duração [min] x corrente [A]"; PltShow],
       Done).
Proof.
  exists (map valor_at (map sample (seq 0 100))).
  split; [rewrite !length_map, length_seq; reflexivity |].
  unfold plotar. rewrite plotar_vars_value. reflexivity.
Qed.

Lemma sample_values : sample 0 = 0.1 /\ sample 49 = 545 / 11 /\ sample 99 = 100.
Proof.
  unfold sample. rewrite INR_99.
  replace (INR 0) with 0 by reflexivity.
  replace (INR 49) with 49 by (rewrite INR_IZR_INZ; reflexivity).
  replace (INR 99) with 99 by (rewrite INR_IZR_INZ; reflexivity).
  repeat split; lra.
Qed.

(** The three marked points: [minimo] is the first sample (0.1 A), [maximo]
    the last (100 A), and [meio] the 50th of the 100 samples, at 545/11 A
    (about 49.55), which is below the middle of the range (50.05 A).  Each
    carries the runtime in minutes at its own current. *)
Theorem plotar_marks :
  exists v : plot_vars,
    plotar_vars = Return v /\
    pv_minimo v = Some (np_float 0.1, valor_at 0.1) /\
    pv_meio v = Some (np_float (545 / 11), valor_at (545 / 11)) /\
    pv_maximo v = Some (np_float 100, valor_at 100) /\
    545 / 11 < (0.1 + 100) / 2.
Proof.
  eexists. split; [apply plotar_vars_value |].
  cbn [pv_minimo pv_meio pv_maximo]. unfold point_at.
  destruct sample_values as [-> [-> ->]].
  repeat split; lra.
Qed.

(** The curve goes down: the runtimes plotted are positive and each is
    smaller than the one before, so the point marked [minimo] (smallest
    current) has the longest runtime and [maximo] the shortest. *)
Theorem plotar_curve_decreasing :
  exists v : plot_vars,
    plotar_vars = Return v /\
    forall k : nat, (k < 99)%nat ->
      exists t1 t2 : R,
        nth_error (pv_vertical v) k = Some (np_float t1) /\
        nth_error (pv_vertical v) (S k) = Some (np_float t2) /\
        0 < t2 < t1.
Proof.
  eexists. split; [apply plotar_vars_value |].
  intros k Hk. cbn [pv_vertical].
  exists (duration_spec 0.6530 100 (sample k) 6 * 60),
         (duration_spec 0.6530 100 (sample (S k)) 6 * 60).
  rewrite !nth_error_map, !nth_error_seq.
  destruct (Nat.ltb_spec k 100) as [_ | H]; [| lia].
  destruct (Nat.ltb_spec (S k) 100) as [_ | H]; [| lia].
  cbn [option_map Nat.add]. unfold valor_at.
  split; [reflexivity |]. split; [reflexivity |].
  pose proof (duration_spec_pos 0.6530 100 (sample (S k)) 6) as Hp.
  pose proof (duration_spec_decreasing 0.6530 100 6 (sample k) (sample (S k))) as Hd.
  pose proof (sample_pos k). pose proof (sample_increasing k).
  split; [| apply Rmult_lt_compat_r; [lra | apply Hd; lra]].
  apply Rmult_lt_0_compat; [apply Hp |]; lra.
Qed.
